(** * boost_histogram._internal.axestuple: ArrayTuple and AxesTuple

    A shallow embedding of [src/boost_histogram/_internal/axestuple.py].

    - Python exceptions are an error monad [res].
    - NumPy arrays are a shape together with row-major (C order) data; the
      three NumPy entry points the module calls ([meshgrid],
      [broadcast_arrays] and the six reductions) are modelled from NumPy's
      documented behaviour, with an unbounded number of dimensions.
    - Scalars are an abstract type [T] with the operations the reductions
      need (class [Scalar]); floating-point rounding is not looked into.
    - Axis objects live in a store addressed by location, so that two
      members of an [AxesTuple] may be the same object. *)

From Stdlib Require Import ZArith List Ascii String Lia.
From stdpp Require Import base option list gmap strings sorting.

Open Scope string_scope.
Open Scope list_scope.

(** ** Python values, exceptions and results *)

Abbreviation loc := positive.

Section Values.
Context {T : Type}.

(** The values that travel through the container: attribute values,
    arguments and results of the per-axis queries, and candidate members.
    [VSeq] is a 1-D numeric sequence and [VMethod name l] the method
    [name] bound to the axis at [l]. [VAxis l] is a reference to an instance
    of (a subclass of) [Axis]; every other constructor is a value for which
    [isinstance(item, Axis)] is false. *)
Inductive value : Type :=
  | VNone
  | VBool (b : bool)
  | VInt (n : Z)
  | VNum (x : T)
  | VStr (s : string)
  | VSeq (xs : list T)
  | VMethod (name : string) (l : loc)
  | VAxis (l : loc).

(** [TypeError_got msg item] stands for [TypeError(f"{msg}{item}")]: the
    interpolated item is kept as it is instead of being printed. *)
Inductive exn : Type :=
  | TypeError_got (msg : string) (item : value)
  | TypeError (msg : string)
  | IndexError (msg : string)
  | ValueError (msg : string)
  | AttributeError (msg : string)
  | ArityMismatch.

Inductive res (A : Type) : Type :=
  | Ok (a : A)
  | Raise (e : exn).

End Values.

Arguments value : clear implicits.
Arguments exn : clear implicits.
Arguments res : clear implicits.
Arguments Ok {T A} a.
Arguments Raise {T A} e.

Definition res_bind {T A B} (f : A -> res T B) (m : res T A) : res T B :=
  match m with
  | Ok a => f a
  | Raise e => Raise e
  end.

#[export] Instance res_mbind {T} : MBind (res T) := @res_bind T.
#[export] Instance res_mret {T} : MRet (res T) := @Ok T.

(** [tuple(f(x) for x in xs)]: the calls are made in order and the first
    exception ends the loop. *)
Fixpoint each {T A B} (f : A -> res T B) (xs : list A) : res T (list B) :=
  match xs with
  | [] => Ok []
  | x :: xs' => y ← f x; ys ← each f xs'; Ok (y :: ys)
  end.

(** ** NumPy *)

(** A multi-index within the bounds of a shape. *)
Abbreviation in_range idx sh := (Forall2 lt idx sh).

Section NumPy.
Context {T : Type}.

Record ndarray : Type := mk_nd { shape : list nat; data : list T }.

(** [a.size]: the product of the dimensions. *)
Definition prod_shape (sh : list nat) : nat := foldr Nat.mul 1 sh.

Definition nd_wf (a : ndarray) : Prop := length (data a) = prod_shape (shape a).

(** Row-major position of a multi-index, and back. *)
Fixpoint ravel (sh idx : list nat) : nat :=
  match sh, idx with
  | _ :: sh', j :: idx' => j * prod_shape sh' + ravel sh' idx'
  | _, _ => 0
  end.

Fixpoint unravel (sh : list nat) (k : nat) : list nat :=
  match sh with
  | [] => []
  | _ :: sh' => k / prod_shape sh' :: unravel sh' (k mod prod_shape sh')
  end.

(** [a[idx]] for a full multi-index; [None] is Python's IndexError. *)
Definition nd_get (a : ndarray) (idx : list nat) : option T :=
  if bool_decide (in_range idx (shape a)) then data a !! ravel (shape a) idx
  else None.

(** *** Broadcasting *)

Definition bdim (x y : nat) : option nat :=
  if Nat.eqb x y then Some x
  else if Nat.eqb x 1 then Some y
  else if Nat.eqb y 1 then Some x
  else None.

Fixpoint bzip (a b : list nat) : option (list nat) :=
  match a, b with
  | [], [] => Some []
  | x :: a', y :: b' => d ← bdim x y; r ← bzip a' b'; Some (d :: r)
  | _, _ => None
  end.

(** Shapes are aligned on their last dimension; the shorter one is
    completed with leading dimensions of size 1. *)
Definition pad (n : nat) (sh : list nat) : list nat :=
  replicate (n - length sh) 1 ++ sh.

Definition bshape2 (a b : list nat) : option (list nat) :=
  let n := length a `max` length b in
  bzip (pad n a) (pad n b).

Definition shape_mismatch : exn T :=
  ValueError "shape mismatch: objects cannot be broadcast to a single shape".

(** The common shape of any number of shapes; no shape at all gives [()]. *)
Definition broadcast_shape (shs : list (list nat)) : res T (list nat) :=
  foldr (fun sh acc =>
           r ← acc;
           match bshape2 sh r with
           | Some s => Ok s
           | None => Raise shape_mismatch
           end) (Ok []) shs.

(** The index of [a] read at index [idx] of the broadcast array. *)
Definition bcast_index (ash idx : list nat) : list nat :=
  zip_with (fun d j => if Nat.eqb d 1 then 0 else j) ash
           (drop (length idx - length ash) idx).

(** [np.broadcast_to(a, sh)] for a shape [sh] that the shape of [a] is
    compatible with: every position of the result reads an element of
    [a]. *)
Definition broadcast_to (a : ndarray) (sh : list nat) : ndarray :=
  mk_nd sh (omap (fun k => nd_get a (bcast_index (shape a) (unravel sh k)))
                 (seq 0 (prod_shape sh))).

(** [np.broadcast_arrays] on the unpacked arguments: an array already of the common shape is
    handed back as it is. *)
Definition broadcast_arrays (args : list ndarray) : res T (list ndarray) :=
  sh ← broadcast_shape (shape <$> args);
  Ok ((fun a => if bool_decide (shape a = sh) then a else broadcast_to a sh)
        <$> args).

(** *** meshgrid *)

Inductive indexing := IJ | XY.

(** [np.asanyarray(x).reshape(sh)] for a 1-D sequence [x]. *)
Definition reshape (x : list T) (sh : list nat) : ndarray := mk_nd sh x.

Definition set_shape (a : ndarray) (sh : list nat) : ndarray := mk_nd sh (data a).

(** [np.meshgrid] on the unpacked sequences [xi], with its keyword
    arguments [sparse] and [indexing]. The [-1] of the
    source's reshape is the length of the sequence, every other dimension
    being 1. *)
Definition meshgrid (xi : list (list T)) (sparse : bool) (ind : indexing)
  : res T (list ndarray) :=
  let ndim := length xi in
  let s0 := replicate ndim 1 in
  let output :=
    imap (fun i x => reshape x (take i s0 ++ length x :: drop (S i) s0)) xi in
  let output :=
    match ind, output with
    | XY, o0 :: o1 :: rest =>
        set_shape o0 (1 :: length (data o0) :: drop 2 s0)
        :: set_shape o1 (length (data o1) :: 1 :: drop 2 s0) :: rest
    | _, _ => output
    end in
  if sparse then Ok output else broadcast_arrays output.

End NumPy.

Arguments ndarray : clear implicits.

(** *** Reductions *)

(** What [np.sum], [np.prod], [np.any], [np.all], [np.min] and [np.max] need
    of the element type. *)
Class Scalar (T : Type) : Type := {
  s_zero : T;
  s_one : T;
  s_add : T -> T -> T;
  s_mul : T -> T -> T;
  s_min : T -> T -> T;
  s_max : T -> T -> T;
  s_truth : T -> bool }.

#[export] Instance Z_scalar : Scalar Z := {|
  s_zero := 0%Z; s_one := 1%Z;
  s_add := Z.add; s_mul := Z.mul;
  s_min := Z.min; s_max := Z.max;
  s_truth := fun z => negb (Z.eqb z 0) |}.

Section Reductions.
Context {T : Type} `{Scalar T}.

(** [np.asarray] of a list of arrays of one shape piles them up along a new
    first dimension; of the empty list it is the empty 1-D array. It is
    only applied to what [np.broadcast_arrays] returned, whose arrays are of
    one shape. *)
Definition np_stack (arrs : list (ndarray T)) : ndarray T :=
  match arrs with
  | [] => mk_nd [0] []
  | a :: _ => mk_nd (length arrs :: shape a) (concat (data <$> arrs))
  end.

Definition zero_size (what : string) : exn T :=
  ValueError (String.append "zero-size array to reduction operation "
                (String.append what " which has no identity")).

(** The reductions with their default [axis=None]: over every element. *)
Definition np_sum (a : ndarray T) : res T (value T) :=
  Ok (VNum (foldl s_add s_zero (data a))).

Definition np_prod (a : ndarray T) : res T (value T) :=
  Ok (VNum (foldl s_mul s_one (data a))).

Definition np_any (a : ndarray T) : res T (value T) :=
  Ok (VBool (existsb s_truth (data a))).

Definition np_all (a : ndarray T) : res T (value T) :=
  Ok (VBool (forallb s_truth (data a))).

Definition np_min (a : ndarray T) : res T (value T) :=
  match data a with
  | [] => Raise (zero_size "minimum")
  | x :: xs => Ok (VNum (foldl s_min x xs))
  end.

Definition np_max (a : ndarray T) : res T (value T) :=
  match data a with
  | [] => Raise (zero_size "maximum")
  | x :: xs => Ok (VNum (foldl s_max x xs))
  end.

(** [getattr(np, name)] for the names the module asks for. *)
Definition np_getattr (name : string)
  : option (ndarray T -> res T (value T)) :=
  if decide (name = "sum") then Some np_sum
  else if decide (name = "any") then Some np_any
  else if decide (name = "all") then Some np_all
  else if decide (name = "min") then Some np_min
  else if decide (name = "max") then Some np_max
  else if decide (name = "prod") then Some np_prod
  else None.

(** *** Attributes of an array

    The part of the attribute table of [numpy.ndarray] that matters here:
    three data attributes, and the methods whose names are those of the
    reductions. *)
Inductive ndattr : Type :=
  | AShape (sh : list nat)
  | ANdim (n : nat)
  | ASize (n : nat)
  | AMethod (name : string) (self : ndarray T).

Definition ndarray_methods : list string :=
  ["sum"; "any"; "all"; "min"; "max"; "prod"].

Definition ndarray_getattr (a : ndarray T) (name : string) : res T ndattr :=
  if decide (name = "shape") then Ok (AShape (shape a))
  else if decide (name = "ndim") then Ok (ANdim (length (shape a)))
  else if decide (name = "size") then Ok (ASize (prod_shape (shape a)))
  else if bool_decide (name ∈ ndarray_methods) then Ok (AMethod name a)
  else Raise (AttributeError "'numpy.ndarray' object has no attribute").

(** ** ArrayTuple *)

Definition _REDUCTIONS : list string :=
  ["sum"; "any"; "all"; "min"; "max"; "prod"].

(** What [ArrayTuple.__getattr__] hands back: the partial application of a
    NumPy function to the list of broadcast members, or a new [ArrayTuple]
    of the members' attributes. *)
Inductive at_attr : Type :=
  | Partial (f : string) (bs : list (ndarray T))
  | Forwarded (vs : list ndattr).

Definition ArrayTuple_getattr (self : list (ndarray T)) (name : string)
  : res T at_attr :=
  if bool_decide (name ∈ _REDUCTIONS) then
    bs ← broadcast_arrays self; Ok (Partial name bs)
  else
    vs ← each (fun a => ndarray_getattr a name) self; Ok (Forwarded vs).

(** Calling the partial object [partial(getattr(np, f), bs)] without
    further arguments: [np.f(bs)], where the list [bs] of arrays of one
    shape is read as their stack. *)
Definition partial_call (f : string) (bs : list (ndarray T))
  : res T (value T) :=
  match np_getattr f with
  | Some g => g (np_stack bs)
  | None => Raise (AttributeError "module 'numpy' has no attribute")
  end.

Definition ArrayTuple_broadcast (self : list (ndarray T))
  : res T (list (ndarray T)) :=
  broadcast_arrays self.

(** Names that the ordinary lookup finds on the class or on [tuple], so that
    [__getattr__] is not called for them (special names of [tuple] and
    [object] other than those of the class body are left out). *)
Definition ArrayTuple_class_attrs : list string :=
  ["__slots__"; "_REDUCTIONS"; "__getattr__"; "__dir__"; "__call__";
   "broadcast"; "count"; "index"].

Inductive at_access : Type :=
  | AtClassAttr (name : string)
  | AtDynamic (r : at_attr).

(** [self.name] on an [ArrayTuple]. *)
Definition ArrayTuple_access (self : list (ndarray T)) (name : string)
  : res T at_access :=
  if bool_decide (name ∈ ArrayTuple_class_attrs) then Ok (AtClassAttr name)
  else r ← ArrayTuple_getattr self name; Ok (AtDynamic r).

End Reductions.

(** ** Built-in tuples *)

Section Tuples.
Context {T : Type}.

Inductive key : Type :=
  | KInt (i : Z)
  | KSlice (start stop step : option Z).

Definition out_of_range : exn T := IndexError "tuple index out of range".

(** [t[i]] for an integer [i]; a negative [i] counts from the end. *)
Definition tuple_item {A} (t : list A) (i : Z) : res T A :=
  let n := Z.of_nat (length t) in
  let j := if (i <? 0)%Z then (i + n)%Z else i in
  if ((j <? 0) || (n <=? j))%Z then Raise out_of_range
  else match t !! Z.to_nat j with
       | Some x => Ok x
       | None => Raise out_of_range
       end.

(** The bounds of a slice once adjusted to a sequence of length [len]. *)
Definition slice_bound (len step : Z) (dflt : Z) (o : option Z) : Z :=
  let lower := if (0 <? step)%Z then 0%Z else (-1)%Z in
  let upper := if (0 <? step)%Z then len else (len - 1)%Z in
  match o with
  | None => dflt
  | Some i => if (i <? 0)%Z then Z.max (i + len) lower else Z.min i upper
  end.

Definition slice_start (len step : Z) (o : option Z) : Z :=
  slice_bound len step (if (0 <? step)%Z then 0 else len - 1)%Z o.

Definition slice_stop (len step : Z) (o : option Z) : Z :=
  slice_bound len step (if (0 <? step)%Z then len else -1)%Z o.

Definition slice_length (start stop step : Z) : Z :=
  if (0 <? step)%Z then
    if (start <? stop)%Z then ((stop - start - 1) / step + 1)%Z else 0%Z
  else
    if (stop <? start)%Z then ((start - stop - 1) / (- step) + 1)%Z else 0%Z.

Definition tuple_slice {A} (t : list A) (start stop step : option Z)
  : res T (list A) :=
  let st := default 1%Z step in
  if (st =? 0)%Z then Raise (ValueError "slice step cannot be zero")
  else
    let len := Z.of_nat (length t) in
    let a := slice_start len st start in
    let b := slice_stop len st stop in
    Ok (omap (fun k => t !! Z.to_nat (a + Z.of_nat k * st))
             (seq 0 (Z.to_nat (slice_length a b st)))).

(** [tuple.__getitem__]: one member for an integer, a tuple for a slice. *)
Definition tuple_getitem {A} (t : list A) (item : key) : res T (A + list A) :=
  match item with
  | KInt i => x ← tuple_item t i; Ok (inl x)
  | KSlice a b c => r ← tuple_slice t a b c; Ok (inr r)
  end.

End Tuples.

(** ** Axis objects and the store *)

Section Axes.
Context {T : Type}.

(** Modelled from the spec: the class [Axis] of [.axis] is not part of the
    sources. An axis has the capability set of the data model: [size] and
    [extent] (integers), [centers], [edges] and [widths] (1-D numeric
    sequences), the callables [value], [bin] and [index], which may raise,
    and arbitrary additional readable and writable attributes, kept in
    [ax_dict]. *)
Record Axis : Type := mk_axis {
  ax_size : Z;
  ax_extent : Z;
  ax_centers : list T;
  ax_edges : list T;
  ax_widths : list T;
  ax_value : value T -> res T (value T);
  ax_bin : value T -> res T (value T);
  ax_index : value T -> res T (value T);
  ax_dict : gmap string (value T) }.

Definition axis_capabilities : list string :=
  ["size"; "extent"; "centers"; "edges"; "widths"; "value"; "bin"; "index"].

Definition no_attribute : exn T := AttributeError "object has no attribute".
Definition cannot_set : exn T := AttributeError "can't set attribute".

(** Modelled from the spec: reading an attribute of an axis. A member that
    lacks the attribute raises the attribute error. *)
Definition axis_getattr (l : loc) (a : Axis) (attr : string) : res T (value T) :=
  if decide (attr = "size") then Ok (VInt (ax_size a))
  else if decide (attr = "extent") then Ok (VInt (ax_extent a))
  else if decide (attr = "centers") then Ok (VSeq (ax_centers a))
  else if decide (attr = "edges") then Ok (VSeq (ax_edges a))
  else if decide (attr = "widths") then Ok (VSeq (ax_widths a))
  else if bool_decide (attr ∈ axis_capabilities) then Ok (VMethod attr l)
  else match ax_dict a !! attr with
       | Some v => Ok v
       | None => Raise no_attribute
       end.

(** Modelled from the spec: writing an attribute of an axis. The capability
    set cannot be written (the axis is immutable in that respect); any other
    attribute is stored on the axis. *)
Definition axis_setattr (a : Axis) (attr : string) (v : value T) : res T Axis :=
  if bool_decide (attr ∈ axis_capabilities) then Raise cannot_set
  else Ok (mk_axis (ax_size a) (ax_extent a) (ax_centers a) (ax_edges a)
                   (ax_widths a) (ax_value a) (ax_bin a) (ax_index a)
                   (<[attr := v]> (ax_dict a))).

(** The store of the axis objects. *)
#[local] Abbreviation heap := (gmap positive Axis).

Definition isinstance_Axis (item : value T) : bool :=
  match item with
  | VAxis _ => true
  | _ => false
  end.

(** The object a member stands for. Members that are not axes, which
    [AxesTuple.__init__] refuses, have none of the attributes asked for. *)
Definition deref (h : heap) (s : value T) : res T (loc * Axis) :=
  match s with
  | VAxis l =>
      match h !! l with
      | Some a => Ok (l, a)
      | None => Raise no_attribute
      end
  | _ => Raise no_attribute
  end.

(** [getattr(s, attr)] *)
Definition py_getattr (h : heap) (s : value T) (attr : string)
  : res T (value T) :=
  '(l, a) ← deref h s; axis_getattr l a attr.

(** [s.__setattr__(attr, v)]: the axis is updated in place. *)
Definition py_setattr (h : heap) (s : value T) (attr : string) (v : value T)
  : heap * res T unit :=
  match deref h s with
  | Ok (l, a) =>
      match axis_setattr a attr v with
      | Ok a' => (<[l := a']> h, Ok ())
      | Raise e => (h, Raise e)
      end
  | Raise e => (h, Raise e)
  end.

(** Modelled from the spec: [zip_strict] of [.utils] is not part of the
    sources. It pairs its two arguments by position and fails with an arity
    mismatch when they differ in length. As a generator it yields the pairs
    that exist before it fails: the list of pairs, and the failure that ends
    the iteration, if any. *)
Fixpoint zip_strict {A B} (xs : list A) (ys : list B)
  : list (A * B) * option (exn T) :=
  match xs, ys with
  | [], [] => ([], None)
  | x :: xs', y :: ys' =>
      let (ps, e) := zip_strict xs' ys' in ((x, y) :: ps, e)
  | _, _ => ([], Some ArityMismatch)
  end.

End Axes.

Arguments Axis : clear implicits.

Abbreviation heap T := (gmap positive (Axis T)).

(** ** AxesTuple *)

Section AxesTuple.
Context {T : Type}.

(** An instance: the members of the tuple, and the attributes stored on the
    instance itself, one per name of [__slots__]; what is assigned to an
    attribute of the container is a sequence of values. *)
Record AxesTuple : Type := mk_axes {
  items : list (value T);
  own : gmap string (list (value T)) }.

#[local] Abbreviation heap := (heap T).

Definition __slots__ : list string := [].

Record mgridopts : Type := mk_opts { sparse : bool; indexing_ : indexing }.

Definition _MGRIDOPTS : mgridopts := mk_opts true IJ.

Definition not_an_axis : string :=
  "Only an iterable of Axis supported in AxesTuple, got ".

Fixpoint AxesTuple_init (self : list (value T)) : res T unit :=
  match self with
  | [] => Ok ()
  | item :: rest =>
      if isinstance_Axis item then AxesTuple_init rest
      else Raise (TypeError_got not_an_axis item)
  end.

(** [AxesTuple(iterable)]: [tuple.__new__] makes the members, [__init__]
    checks them, and the caller gets the instance only when [__init__]
    returns. *)
Definition AxesTuple_new (iterable : list (value T)) : res T AxesTuple :=
  _ ← AxesTuple_init iterable; Ok (mk_axes iterable ∅).

Definition AxesTuple_size (h : heap) (self : AxesTuple) : res T (list Z) :=
  each (fun s => '(_, a) ← deref h s; Ok (ax_size a)) (items self).

Definition AxesTuple_extent (h : heap) (self : AxesTuple) : res T (list Z) :=
  each (fun s => '(_, a) ← deref h s; Ok (ax_extent a)) (items self).

Definition AxesTuple_centers (h : heap) (self : AxesTuple)
  : res T (list (ndarray T)) :=
  gen ← each (fun s => '(_, a) ← deref h s; Ok (ax_centers a)) (items self);
  meshgrid gen (sparse _MGRIDOPTS) (indexing_ _MGRIDOPTS).

Definition AxesTuple_edges (h : heap) (self : AxesTuple)
  : res T (list (ndarray T)) :=
  gen ← each (fun s => '(_, a) ← deref h s; Ok (ax_edges a)) (items self);
  meshgrid gen (sparse _MGRIDOPTS) (indexing_ _MGRIDOPTS).

Definition AxesTuple_widths (h : heap) (self : AxesTuple)
  : res T (list (ndarray T)) :=
  gen ← each (fun s => '(_, a) ← deref h s; Ok (ax_widths a)) (items self);
  meshgrid gen (sparse _MGRIDOPTS) (indexing_ _MGRIDOPTS).

Inductive item_result : Type :=
  | Bare (v : value T)
  | Wrapped (t : AxesTuple).

(** [isinstance(result, tuple)] holds of the outcome of a slice; a single
    member is a [value], none of which is a tuple. *)
Definition AxesTuple_getitem (self : AxesTuple) (item : key)
  : res T item_result :=
  result ← tuple_getitem (items self) item;
  match result with
  | inr sub => t ← AxesTuple_new sub; Ok (Wrapped t)
  | inl v => Ok (Bare v)
  end.

Definition arity_message : string :=
  "Must have the same number of arguments as the number of axes".

(** The body shared by [value], [bin] and [index]:
    [tuple(self[i].m(args[i]) for i in range(len(args)))] behind the check
    of the number of arguments. *)
Definition per_axis (m : Axis T -> value T -> res T (value T))
    (h : heap) (self : AxesTuple) (args : list (value T))
  : res T (list (value T)) :=
  if bool_decide (length args ≠ length (items self)) then
    Raise (IndexError arity_message)
  else
    each (fun i =>
            s ← AxesTuple_getitem self (KInt (Z.of_nat i));
            match s with
            | Bare v =>
                '(_, a) ← deref h v;
                x ← tuple_item args (Z.of_nat i);
                m a x
            | Wrapped _ => Raise no_attribute
            end)
         (seq 0 (length args)).

Definition AxesTuple_value := per_axis ax_value.
Definition AxesTuple_bin := per_axis ax_bin.
Definition AxesTuple_index := per_axis ax_index.

Definition AxesTuple_getattr (h : heap) (self : AxesTuple) (attr : string)
  : res T (list (value T)) :=
  each (fun s => py_getattr h s attr) (items self).

Definition class_message : string := "__class__ must be set to a class".

(** [object.__setattr__] on an instance of a class whose layout is that of
    [tuple] plus the names of [__slots__]. The name [__class__] is a data
    descriptor of [object]: what is assigned to it here is a sequence of
    values and not a class, which the descriptor refuses with a type error
    (its message goes on with the type of the value, left out here). For
    every other name there is no instance dictionary, so that only a slot
    can be written: a property without setter, an attribute of the class
    and a name that is not known all raise the attribute error. *)
Definition object_setattr (self : AxesTuple) (attr : string)
    (v : list (value T)) : res T AxesTuple :=
  if decide (attr = "__class__") then Raise (TypeError class_message)
  else if bool_decide (attr ∈ __slots__) then
    Ok (mk_axes (items self) (<[attr := v]> (own self)))
  else Raise (AttributeError "object has no attribute or it is read-only").

(** The loop [for s, v in ...: s.__setattr__(attr, v)] over the pairs that
    the generator yields. *)
Fixpoint forward_writes (h : heap) (ps : list (value T * value T))
    (attr : string) : heap * res T unit :=
  match ps with
  | [] => (h, Ok ())
  | (s, v) :: ps' =>
      match py_setattr h s attr v with
      | (h', Ok _) => forward_writes h' ps' attr
      | (h', Raise e) => (h', Raise e)
      end
  end.

(** [self.attr = values]: the state after the call is the store, the
    instance, and the outcome. *)
Definition AxesTuple_setattr (h : heap) (self : AxesTuple) (attr : string)
    (values : list (value T)) : heap * AxesTuple * res T unit :=
  match object_setattr self attr values with
  | Ok self' => (h, self', Ok ())
  | Raise (AttributeError _) =>
      let (ps, stop) := zip_strict (items self) values in
      match forward_writes h ps attr with
      | (h', Raise e) => (h', self, Raise e)
      | (h', Ok _) =>
          match stop with
          | Some e => (h', self, Raise e)
          | None => (h', self, Ok ())
          end
      end
  | Raise e => (h, self, Raise e)
  end.

(** Names that the ordinary lookup finds on the class or on [tuple], for
    which [__getattr__] is not called (special names of [tuple] and [object]
    other than [__class__] and those of the class body are left out). *)
Definition AxesTuple_class_attrs : list string :=
  ["__slots__"; "_MGRIDOPTS"; "__init__"; "size"; "extent"; "centers";
   "edges"; "widths"; "value"; "bin"; "index"; "__getitem__"; "__getattr__";
   "__setattr__"; "count"; "__class__"].

Inductive access : Type :=
  | OwnAttr (v : list (value T))
  | ClassAttr (name : string)
  | Forward (vs : list (value T)).

(** [self.attr] on an [AxesTuple]. *)
Definition AxesTuple_access (h : heap) (self : AxesTuple) (attr : string)
  : res T access :=
  match own self !! attr with
  | Some v => Ok (OwnAttr v)
  | None =>
      if bool_decide (attr ∈ AxesTuple_class_attrs) then Ok (ClassAttr attr)
      else vs ← AxesTuple_getattr h self attr; Ok (Forward vs)
  end.

End AxesTuple.

Arguments AxesTuple : clear implicits.

(** * Properties *)

(** ** Loops that may raise *)

Section EachFacts.
Context {T : Type}.

Lemma each_ext {A B} (f g : A -> res T B) (xs : list A) :
  (forall x, x ∈ xs -> f x = g x) -> each f xs = each g xs.
Proof.
  induction xs as [|x xs IH]; intros Hfg; [done|].
  cbn. rewrite (Hfg x) by left. rewrite IH; [done|].
  intros y Hy. apply Hfg. by right.
Qed.

Lemma each_fmap {A B C} (f : B -> res T C) (g : A -> B) (xs : list A) :
  each f (g <$> xs) = each (fun x => f (g x)) xs.
Proof. induction xs as [|x xs IH]; [done|]. cbn. by rewrite IH. Qed.

Lemma each_Ok {A B} (f : A -> res T B) (xs : list A) (ys : list B) :
  each f xs = Ok ys <-> Forall2 (fun x y => f x = Ok y) xs ys.
Proof.
  revert ys. induction xs as [|x xs IH]; intros ys; cbn.
  - split; [intros [= <-]; constructor | by inversion 1].
  - destruct (f x) as [y|e] eqn:Hx; cbn.
    + destruct (each f xs) as [zs|e] eqn:Hxs; cbn.
      * split.
        -- intros [= <-]. constructor; [done|]. by apply IH.
        -- inversion 1 as [|? y' ? zs' Hy Hzs]; subst.
           apply IH in Hzs. congruence.
      * split; [done|].
        inversion 1 as [|? y' ? zs' Hy Hzs]; subst.
        apply IH in Hzs. congruence.
    + split; [done|]. inversion 1; congruence.
Qed.

(** A loop over the positions of a list is the loop over its elements. *)
Lemma each_positions {A B} (f : A -> res T B) (g : nat -> res T B)
    (l : list A) :
  (forall i x, l !! i = Some x -> g i = f x) ->
  each g (seq 0 (length l)) = each f l.
Proof.
  revert g. induction l as [|x l IH]; intros g Hg; [done|].
  cbn [length seq each]. rewrite (Hg 0 x) by done.
  rewrite <- fmap_S_seq, each_fmap.
  rewrite (IH (fun i => g (S i))); [done|].
  intros i y Hi. by apply Hg.
Qed.

Lemma each_length {A B} (f : A -> res T B) (xs : list A) (ys : list B) :
  each f xs = Ok ys -> length ys = length xs.
Proof. rewrite each_Ok. intros Hf. symmetry. by eapply Forall2_length. Qed.

End EachFacts.

(** ** Construction *)

Section Construction.
Context {T : Type}.

Definition all_axes (vs : list (value T)) : Prop :=
  Forall (fun v => isinstance_Axis v = true) vs.

Lemma AxesTuple_init_Ok (vs : list (value T)) :
  AxesTuple_init vs = Ok () <-> all_axes vs.
Proof.
  unfold all_axes. induction vs as [|v vs IH]; cbn.
  - split; [constructor | done].
  - destruct (isinstance_Axis v) eqn:Hv.
    + rewrite IH. split; [by constructor | by inversion 1].
    + split; [done|]. inversion 1; congruence.
Qed.

Lemma AxesTuple_init_first_bad (pre post : list (value T)) (item : value T) :
  all_axes pre -> isinstance_Axis item = false ->
  AxesTuple_init (pre ++ item :: post) = Raise (TypeError_got not_an_axis item).
Proof.
  intros Hpre Hitem. induction Hpre as [|v pre Hv _ IH]; cbn.
  - by rewrite Hitem.
  - by rewrite Hv.
Qed.

Lemma first_bad_split (vs : list (value T)) :
  Exists (fun v => isinstance_Axis v = false) vs ->
  exists pre item post,
    vs = pre ++ item :: post /\ all_axes pre /\ isinstance_Axis item = false.
Proof.
  induction vs as [|v vs IH]; intros Hex; [by inversion Hex|].
  destruct (isinstance_Axis v) eqn:Hv.
  - destruct IH as (pre & item & post & -> & Hpre & Hitem).
    { inversion Hex; subst; [congruence | done]. }
    exists (v :: pre), item, post. repeat split; [by constructor | done].
  - exists [], v, vs. repeat split; [constructor | done].
Qed.

Lemma AxesTuple_new_Ok (vs : list (value T)) (t : AxesTuple T) :
  AxesTuple_new vs = Ok t -> t = mk_axes vs ∅ /\ all_axes vs.
Proof.
  unfold AxesTuple_new. destruct (AxesTuple_init vs) as [[]|e] eqn:Hi; cbn.
  - intros [= <-]. split; [done|]. by apply AxesTuple_init_Ok.
  - done.
Qed.

Lemma AxesTuple_new_all_axes (vs : list (value T)) :
  all_axes vs -> AxesTuple_new vs = Ok (mk_axes vs ∅).
Proof.
  intros Hvs. unfold AxesTuple_new.
  by rewrite (proj2 (AxesTuple_init_Ok vs) Hvs).
Qed.

(** C4. Construction from a sequence with an element that is not an axis
    raises the type error that names the first such element, and hands no
    container back; construction from a sequence of axes, the empty one
    included, returns the container of exactly these members. *)
Theorem AxesTuple_new_validates (iterable : list (value T)) :
  (all_axes iterable -> AxesTuple_new iterable = Ok (mk_axes iterable ∅))
  /\ (Exists (fun v => isinstance_Axis v = false) iterable ->
      (exists pre item post,
         iterable = pre ++ item :: post /\ all_axes pre
         /\ isinstance_Axis item = false
         /\ AxesTuple_new iterable = Raise (TypeError_got not_an_axis item))
      /\ forall t, AxesTuple_new iterable <> Ok t)
  /\ AxesTuple_new (T:=T) [] = Ok (mk_axes [] ∅).
Proof.
  split; [apply AxesTuple_new_all_axes|]. split; [|done].
  intros Hex.
  destruct (first_bad_split _ Hex) as (pre & item & post & -> & Hpre & Hitem).
  assert (AxesTuple_new (pre ++ item :: post)
          = Raise (TypeError_got not_an_axis item)) as Hnew.
  { unfold AxesTuple_new. by rewrite AxesTuple_init_first_bad. }
  split; [by exists pre, item, post|].
  intros t. by rewrite Hnew.
Qed.

End Construction.

(** ** Indexing *)

Section Indexing.
Context {T : Type}.

Lemma tuple_item_nat {A} (t : list A) (i : nat) (x : A) :
  t !! i = Some x -> tuple_item (T:=T) t (Z.of_nat i) = Ok x.
Proof.
  intros Hi. pose proof (lookup_lt_Some _ _ _ Hi) as Hlt.
  unfold tuple_item.
  destruct (Z.ltb_spec (Z.of_nat i) 0) as [?|_]; [lia|].
  destruct (Z.ltb_spec (Z.of_nat i) 0) as [?|_]; [lia|].
  destruct (Z.leb_spec (Z.of_nat (length t)) (Z.of_nat i)) as [?|_]; [lia|].
  cbn. by rewrite Nat2Z.id, Hi.
Qed.

Lemma tuple_item_negative {A} (t : list A) (i : nat) (x : A) :
  0 < i <= length t -> t !! (length t - i) = Some x ->
  tuple_item (T:=T) t (- Z.of_nat i) = Ok x.
Proof.
  intros Hi Hx. unfold tuple_item.
  destruct (Z.ltb_spec (- Z.of_nat i) 0) as [_|?]; [|lia].
  destruct (Z.ltb_spec (- Z.of_nat i + Z.of_nat (length t)) 0) as [?|_]; [lia|].
  destruct (Z.leb_spec (Z.of_nat (length t))
              (- Z.of_nat i + Z.of_nat (length t))) as [?|_]; [lia|].
  cbn. replace (Z.to_nat (- Z.of_nat i + Z.of_nat (length t)))
    with (length t - i) by lia.
  by rewrite Hx.
Qed.

Lemma tuple_item_beyond {A} (t : list A) (i : Z) :
  (Z.of_nat (length t) <= i)%Z -> tuple_item (T:=T) t i = Raise out_of_range.
Proof.
  intros Hi. unfold tuple_item.
  destruct (Z.ltb_spec i 0) as [?|_]; [lia|].
  destruct (Z.ltb_spec i 0) as [?|_]; [lia|].
  by destruct (Z.leb_spec (Z.of_nat (length t)) i) as [_|?]; [|lia].
Qed.

Lemma omap_pointwise {A B} (f g : A -> option B) (l : list A) :
  (forall x, f x = g x) -> omap f l = omap g l.
Proof.
  intros Hfg. induction l as [|x l IH]; [done|].
  cbn. by rewrite Hfg, IH.
Qed.

Lemma omap_lookup_seq {A} (t : list A) (a n : nat) :
  omap (fun k => t !! (a + k)) (seq 0 n) = take n (drop a t).
Proof.
  induction n as [|n IH]; [done|].
  rewrite seq_S, omap_app, IH. cbn.
  destruct (t !! (a + n)) as [x|] eqn:Hx.
  - symmetry. apply take_S_r. by rewrite lookup_drop.
  - rewrite app_nil_r. apply lookup_ge_None in Hx.
    rewrite !take_ge; [done | rewrite length_drop; lia ..].
Qed.

Lemma tuple_slice_nat {A} (t : list A) (a b : nat) :
  tuple_slice (T:=T) t (Some (Z.of_nat a)) (Some (Z.of_nat b)) None
  = Ok (take (b - a) (drop a t)).
Proof.
  unfold tuple_slice, slice_start, slice_stop, slice_bound, slice_length.
  cbn [default]. change (1 =? 0)%Z with false. change (0 <? 1)%Z with true.
  cbn match.
  destruct (Z.ltb_spec (Z.of_nat a) 0) as [?|_]; [lia|].
  destruct (Z.ltb_spec (Z.of_nat b) 0) as [?|_]; [lia|].
  remember (length t) as n eqn:Hn.
  f_equal.
  rewrite (omap_pointwise _
             (fun k => t !! (Z.to_nat (Z.min (Z.of_nat a) (Z.of_nat n)) + k)))
    by (intros k; f_equal; lia).
  rewrite omap_lookup_seq.
  destruct (Z.ltb_spec (Z.min (Z.of_nat a) (Z.of_nat n))
              (Z.min (Z.of_nat b) (Z.of_nat n))) as [Hlt|Hge].
  - rewrite Z.div_1_r.
    replace (Z.to_nat (Z.min (Z.of_nat a) (Z.of_nat n))) with a by lia.
    destruct (decide (b <= n)) as [Hb|Hb].
    + f_equal. lia.
    + rewrite !take_ge; [done | rewrite length_drop; lia ..].
  - cbn [Z.to_nat take].
    destruct (decide (a < n)) as [Ha|Ha].
    + by replace (b - a) with 0 by lia.
    + rewrite (drop_ge t a) by lia. by rewrite take_nil.
Qed.

Lemma all_axes_sub (vs : list (value T)) (a n : nat) :
  all_axes vs -> all_axes (take n (drop a vs)).
Proof. intros Hvs. by apply Forall_take, Forall_drop. Qed.

(** C8. On a container built by the constructor, an integer index gives
    the member itself, not a container (from the end for a negative index,
    an index error beyond the last member), and a slice [a:b] gives a new
    container, which the constructor has checked again, of the members from
    position [a] up to position [b], in order. *)
Theorem AxesTuple_getitem_spec (vs : list (value T)) (self : AxesTuple T) :
  AxesTuple_new vs = Ok self ->
  (forall (i : nat) (s : value T),
     items self !! i = Some s ->
     AxesTuple_getitem self (KInt (Z.of_nat i)) = Ok (Bare s)
     /\ isinstance_Axis s = true)
  /\ (forall (i : nat) (s : value T),
        0 < i <= length (items self) ->
        items self !! (length (items self) - i) = Some s ->
        AxesTuple_getitem self (KInt (- Z.of_nat i)) = Ok (Bare s))
  /\ (forall i : Z,
        (Z.of_nat (length (items self)) <= i)%Z ->
        AxesTuple_getitem self (KInt i) = Raise out_of_range)
  /\ (forall a b : nat,
        AxesTuple_getitem self (KSlice (Some (Z.of_nat a)) (Some (Z.of_nat b)) None)
        = Ok (Wrapped (mk_axes (take (b - a) (drop a (items self))) ∅))
        /\ AxesTuple_new (take (b - a) (drop a (items self)))
           = Ok (mk_axes (take (b - a) (drop a (items self))) ∅)).
Proof.
  intros Hnew. apply AxesTuple_new_Ok in Hnew as [-> Hvs]. cbn [items].
  split; [|split; [|split]].
  - intros i s Hs. split.
    + unfold AxesTuple_getitem, tuple_getitem. cbn [items].
      by rewrite (tuple_item_nat _ _ _ Hs).
    + exact (Forall_lookup_1 _ _ _ _ Hvs Hs).
  - intros i s Hi Hs. unfold AxesTuple_getitem, tuple_getitem. cbn [items].
    by rewrite (tuple_item_negative _ _ _ Hi Hs).
  - intros i Hi. unfold AxesTuple_getitem, tuple_getitem. cbn [items].
    by rewrite (tuple_item_beyond _ _ Hi).
  - intros a b.
    assert (AxesTuple_new (take (b - a) (drop a vs))
            = Ok (mk_axes (take (b - a) (drop a vs)) ∅)) as Hsub
      by by apply AxesTuple_new_all_axes, all_axes_sub.
    split; [|done].
    unfold AxesTuple_getitem, tuple_getitem. cbn [items].
    rewrite tuple_slice_nat. cbn [mbind res_mbind res_bind].
    by rewrite Hsub.
Qed.

End Indexing.

(** ** Per-axis queries *)

Section Queries.
Context {T : Type}.

(** [calls m h s x r]: the member [s] is an axis of the store whose method
    [m], called on [x], returns [r]. *)
Definition calls (m : Axis T -> value T -> res T (value T)) (h : heap T)
    (s x r : value T) : Prop :=
  exists l a, s = VAxis l /\ h !! l = Some a /\ m a x = Ok r.

(** One call of the loop, on a member and its argument. *)
Definition call_on (m : Axis T -> value T -> res T (value T)) (h : heap T)
    (p : value T * value T) : res T (value T) :=
  '(_, a) ← deref h p.1; m a p.2.

Lemma call_on_Ok m h s x r : call_on m h (s, x) = Ok r <-> calls m h s x r.
Proof.
  unfold call_on, calls, deref. cbn. split.
  - destruct s; try done. destruct (h !! l) as [a|] eqn:Hl; [|done].
    cbn. intros Hm. by exists l, a.
  - intros (l & a & -> & Hl & Hm). by rewrite Hl.
Qed.

Lemma per_axis_arity m (h : heap T) self args :
  length args <> length (items self) ->
  per_axis m h self args = Raise (IndexError arity_message).
Proof. intros Hne. unfold per_axis. by rewrite bool_decide_eq_true_2. Qed.

Lemma per_axis_zip m (h : heap T) self args :
  length args = length (items self) ->
  per_axis m h self args = each (call_on m h) (zip (items self) args).
Proof.
  intros Hlen. unfold per_axis. rewrite bool_decide_eq_false_2 by by intros ?.
  replace (length args) with (length (zip (items self) args))
    by (rewrite length_zip; lia).
  apply each_positions. intros i [s x] [Hs Hx]%lookup_zip_Some.
  unfold AxesTuple_getitem, tuple_getitem, call_on.
  rewrite (tuple_item_nat _ _ _ Hs), (tuple_item_nat _ _ _ Hx).
  cbn [mbind res_mbind res_bind fst snd].
  destruct (deref h s) as [[l a]|e]; done.
Qed.

Lemma Forall2_zip_Forall3 {A B C} (P : A -> B -> C -> Prop) xs ys zs :
  length xs = length ys ->
  Forall2 (fun p z => P p.1 p.2 z) (zip xs ys) zs <-> Forall3 P xs ys zs.
Proof.
  revert ys zs. induction xs as [|x xs IH]; intros [|y ys] zs Hlen;
    try discriminate; cbn.
  - split; inversion 1; constructor.
  - split.
    + inversion 1 as [|? z ? zs' Hz Hzs]; subst. constructor; [done|].
      apply IH; [by injection Hlen | done].
    + inversion 1 as [|? ? z ? ? zs' Hz Hzs]; subst. constructor; [done|].
      apply IH; [by injection Hlen | done].
Qed.

Lemma per_axis_Ok m (h : heap T) self args rs :
  length args = length (items self) ->
  per_axis m h self args = Ok rs <-> Forall3 (calls m h) (items self) args rs.
Proof.
  intros Hlen. rewrite per_axis_zip, each_Ok by done.
  rewrite <- Forall2_zip_Forall3 by done.
  split; intros Hall; eapply Forall2_impl; try exact Hall;
    intros [s x] r; apply call_on_Ok.
Qed.

(** The decimal digits of a text, in order: a text that gives a count as a
    numeral has at least one. *)
Definition is_digit (c : ascii) : bool :=
  Nat.leb 48 (nat_of_ascii c) && Nat.leb (nat_of_ascii c) 57.

Definition digits (s : string) : list ascii :=
  filter (fun c => is_digit c = true) (list_ascii_of_string s).

(** C3, amended. With a number of arguments other than the number of axes,
    [value], [bin] and [index] raise the index error whose message is the
    one fixed sentence that asks for as many arguments as there are axes:
    the same text whatever the number of axes, with no numeral in it. With
    as many arguments as axes, each of them makes, in order, the call of the
    method of that name of member [i] on argument [i], and returns the tuple
    of the results: it returns [rs] exactly when every one of these calls
    returns and [rs] lists what they return, and otherwise raises what the
    first failing call raises. *)
Theorem per_axis_queries (h : heap T) (self : AxesTuple T)
    (args : list (value T)) :
  (length args <> length (items self) ->
   AxesTuple_value h self args
   = Raise (IndexError
              "Must have the same number of arguments as the number of axes")
   /\ AxesTuple_bin h self args
      = Raise (IndexError
                 "Must have the same number of arguments as the number of axes")
   /\ AxesTuple_index h self args
      = Raise (IndexError
                 "Must have the same number of arguments as the number of axes"))
  /\ digits arity_message = []
  /\ (length args = length (items self) ->
      (AxesTuple_value h self args
         = each (call_on ax_value h) (zip (items self) args)
       /\ AxesTuple_bin h self args
         = each (call_on ax_bin h) (zip (items self) args)
       /\ AxesTuple_index h self args
         = each (call_on ax_index h) (zip (items self) args))
      /\ forall rs,
          (AxesTuple_value h self args = Ok rs
           <-> Forall3 (calls ax_value h) (items self) args rs)
          /\ (AxesTuple_bin h self args = Ok rs
              <-> Forall3 (calls ax_bin h) (items self) args rs)
          /\ (AxesTuple_index h self args = Ok rs
              <-> Forall3 (calls ax_index h) (items self) args rs)).
Proof.
  split; [|split].
  - intros Hne. repeat split; by apply per_axis_arity.
  - reflexivity.
  - intros Hlen. split.
    + repeat split; by apply per_axis_zip.
    + intros rs. repeat split; by apply per_axis_Ok.
Qed.

End Queries.

(** ** Attribute writes *)

Section Writes.
Context {T : Type}.

(** The members live in the store. *)
Definition in_store (h : heap T) (vs : list (value T)) : Prop :=
  Forall (fun s => exists l a, s = VAxis l /\ h !! l = Some a) vs.

(** Two states of one axis that differ at most in the attribute [attr]. *)
Definition same_but (attr : string) (a a' : Axis T) : Prop :=
  ax_size a' = ax_size a /\ ax_extent a' = ax_extent a
  /\ ax_centers a' = ax_centers a /\ ax_edges a' = ax_edges a
  /\ ax_widths a' = ax_widths a
  /\ ax_value a' = ax_value a /\ ax_bin a' = ax_bin a
  /\ ax_index a' = ax_index a
  /\ forall k, k <> attr -> ax_dict a' !! k = ax_dict a !! k.

(** From [h] to [h'] no object appears or disappears, the objects are
    changed at most in their attribute [attr], and the objects that are not
    among the members [vs] are not changed at all. *)
Definition touched_only (attr : string) (vs : list (value T))
    (h h' : heap T) : Prop :=
  forall l, (VAxis l ∉ vs -> h' !! l = h !! l)
            /\ option_Forall2 (same_but attr) (h !! l) (h' !! l).

Lemma same_but_refl attr a : same_but attr a a.
Proof. by repeat split. Qed.

Lemma same_but_trans attr a b c :
  same_but attr a b -> same_but attr b c -> same_but attr a c.
Proof.
  intros (?&?&?&?&?&?&?&?&Hab) (?&?&?&?&?&?&?&?&Hbc).
  repeat split; try congruence.
  intros k Hk. by rewrite Hbc, Hab.
Qed.

Lemma touched_only_refl attr vs h : touched_only attr vs h h.
Proof.
  intros l. split; [done|].
  destruct (h !! l); constructor. apply same_but_refl.
Qed.

Lemma touched_only_trans attr s vs h1 h2 h3 :
  touched_only attr [s] h1 h2 -> touched_only attr vs h2 h3 ->
  touched_only attr (s :: vs) h1 h3.
Proof.
  intros H12 H23 l. destruct (H12 l) as [Hf12 Hr12], (H23 l) as [Hf23 Hr23].
  split.
  - intros Hl. rewrite not_elem_of_cons in Hl. destruct Hl as [Hs Hvs].
    rewrite Hf23 by done. apply Hf12. rewrite list_elem_of_singleton. done.
  - destruct Hr12; inversion Hr23; subst; constructor.
    eapply same_but_trans; eauto.
Qed.

Lemma py_setattr_touched (h h' : heap T) s attr v r :
  py_setattr h s attr v = (h', r) -> touched_only attr [s] h h'.
Proof.
  unfold py_setattr, deref, axis_setattr.
  destruct s; try (intros [= <- <-]; apply touched_only_refl).
  destruct (h !! l) as [a|] eqn:Hl;
    [|intros [= <- <-]; apply touched_only_refl].
  case_bool_decide; [intros [= <- <-]; apply touched_only_refl|].
  intros [= <- <-] l'. destruct (decide (l' = l)) as [->|Hne].
  - split.
    + intros []. by apply list_elem_of_singleton.
    + rewrite lookup_insert_eq, Hl. constructor. repeat split. cbn.
      intros k Hk. by rewrite lookup_insert_ne.
  - rewrite lookup_insert_ne by done. split; [done|].
    destruct (h !! l'); constructor. apply same_but_refl.
Qed.

Lemma forward_writes_touched (h h' : heap T) ps attr r :
  forward_writes h ps attr = (h', r) -> touched_only attr ps.*1 h h'.
Proof.
  revert h. induction ps as [|[s v] ps IH]; intros h; cbn.
  - intros [= <- <-]. apply touched_only_refl.
  - destruct (py_setattr h s attr v) as [h1 [[]|e]] eqn:Hs.
    + intros Hrest. eapply touched_only_trans.
      * by eapply py_setattr_touched.
      * by apply IH.
    + intros [= <- <-]. eapply touched_only_trans.
      * by eapply py_setattr_touched.
      * apply touched_only_refl.
Qed.

Lemma zip_strict_zip {A B} (xs : list A) (ys : list B) :
  zip_strict (T:=T) xs ys
  = (zip xs ys,
     if decide (length ys = length xs) then None else Some ArityMismatch).
Proof.
  revert ys. induction xs as [|x xs IH]; intros [|y ys]; cbn; try done.
  rewrite IH. repeat case_decide; try done; lia.
Qed.

Lemma object_setattr_raises (self : AxesTuple T) attr values :
  attr <> "__class__" ->
  object_setattr self attr values
  = Raise (AttributeError "object has no attribute or it is read-only").
Proof.
  intros Hattr. unfold object_setattr, __slots__.
  rewrite decide_False by done.
  rewrite bool_decide_eq_false_2; [done | apply not_elem_of_nil].
Qed.

Lemma object_setattr_class (self : AxesTuple T) values :
  object_setattr self "__class__" values = Raise (TypeError class_message).
Proof. done. Qed.

Lemma AxesTuple_setattr_class (h : heap T) (self : AxesTuple T) values :
  AxesTuple_setattr h self "__class__" values
  = (h, self, Raise (TypeError class_message)).
Proof. done. Qed.

Lemma AxesTuple_setattr_forwards (h : heap T) (self : AxesTuple T) attr values :
  attr <> "__class__" ->
  AxesTuple_setattr h self attr values
  = match forward_writes h (zip (items self) values) attr with
    | (h', Raise e) => (h', self, Raise e)
    | (h', Ok _) =>
        (h', self,
         if decide (length values = length (items self)) then Ok ()
         else Raise ArityMismatch)
    end.
Proof.
  intros Hattr. unfold AxesTuple_setattr.
  rewrite object_setattr_raises, zip_strict_zip by done.
  destruct (forward_writes _ _ _) as [h' [[]|e]]; [|done].
  by case_decide.
Qed.

(** Whatever the name and the outcome, the instance is the same after the
    call, and the store changes as [touched_only] says. *)
Lemma AxesTuple_setattr_touched (h h' : heap T) self self' attr values r :
  AxesTuple_setattr h self attr values = (h', self', r) ->
  self' = self /\ touched_only attr (items self) h h'.
Proof.
  destruct (decide (attr = "__class__")) as [->|Hattr].
  { rewrite AxesTuple_setattr_class. intros [= <- <- <-].
    split; [done | apply touched_only_refl]. }
  rewrite AxesTuple_setattr_forwards by done.
  destruct (forward_writes h (zip (items self) values) attr)
    as [h1 r1] eqn:Hfw.
  apply forward_writes_touched in Hfw.
  intros Heq.
  assert (h1 = h' /\ self' = self) as [<- ->]
    by (destruct r1 as [[]|e]; by injection Heq).
  split; [done|].
  intros l. destruct (Hfw l) as [Hframe Hrel]. split; [|done].
  intros Hl. apply Hframe. intros Hin. apply Hl.
  apply list_elem_of_fmap in Hin as ([s v] & -> & Hin).
  by apply elem_of_zip_l in Hin.
Qed.

End Writes.

(** ** Writing then reading an attribute *)

Section RoundTrip.
Context {T : Type}.

Lemma capabilities_on_class (attr : string) :
  attr ∉ AxesTuple_class_attrs -> attr ∉ axis_capabilities.
Proof.
  unfold AxesTuple_class_attrs, axis_capabilities. intros Hattr Hcap.
  apply Hattr. apply list_elem_of_In. apply list_elem_of_In in Hcap.
  cbn in *. tauto.
Qed.

Lemma axis_getattr_dict (l : loc) (a : Axis T) attr :
  attr ∉ axis_capabilities ->
  axis_getattr l a attr
  = match ax_dict a !! attr with Some v => Ok v | None => Raise no_attribute end.
Proof.
  intros Hattr. unfold axis_getattr.
  repeat (case_decide; [subst attr; exfalso; apply Hattr;
                        apply list_elem_of_In; cbn; tauto|]).
  by rewrite bool_decide_eq_false_2.
Qed.

Lemma py_setattr_stored (h : heap T) (l : loc) (a : Axis T) attr v :
  h !! l = Some a -> attr ∉ axis_capabilities ->
  exists a',
    py_setattr h (VAxis l) attr v = (<[l := a']> h, Ok ())
    /\ axis_getattr l a' attr = Ok v.
Proof.
  intros Hl Hattr. unfold py_setattr, deref, axis_setattr. rewrite Hl.
  rewrite bool_decide_eq_false_2 by done.
  eexists. split; [done|].
  rewrite axis_getattr_dict by done. cbn. by rewrite lookup_insert_eq.
Qed.

Lemma in_store_touched attr vs ws (h h' : heap T) :
  touched_only attr ws h h' -> in_store h vs -> in_store h' vs.
Proof.
  intros Ht Hvs. eapply Forall_impl; [exact Hvs|]. intros s (l & a & -> & Hl).
  destruct (Ht l) as [_ Hrel]. rewrite Hl in Hrel.
  inversion Hrel as [a0 a' Hsame Ha0 Hl'|]. symmetry in Hl'. by exists l, a'.
Qed.

Lemma forward_writes_returns (h : heap T) ss vs attr :
  in_store h ss -> attr ∉ axis_capabilities ->
  exists h', forward_writes h (zip ss vs) attr = (h', Ok ()).
Proof.
  intros Hss Hattr. revert h vs Hss.
  induction ss as [|s ss IH]; intros h [|v vs] Hss; cbn; try by eexists.
  inversion Hss as [|? ? (l & a & -> & Hl) Hss']; subst.
  destruct (py_setattr_stored h l a attr v Hl Hattr) as (a' & Hset & _).
  rewrite Hset. apply IH.
  eapply in_store_touched; [by eapply py_setattr_touched | done].
Qed.

Lemma forward_writes_read_back (h : heap T) ss vs attr :
  in_store h ss -> NoDup ss -> attr ∉ axis_capabilities ->
  length vs = length ss ->
  exists h',
    forward_writes h (zip ss vs) attr = (h', Ok ())
    /\ each (fun s => py_getattr h' s attr) ss = Ok vs.
Proof.
  intros Hss Hdup Hattr. revert h vs Hss Hdup.
  induction ss as [|s ss IH]; intros h [|v vs] Hss Hdup Hlen;
    try discriminate; cbn [zip_with forward_writes each].
  { by eexists. }
  inversion Hss as [|? ? (l & a & -> & Hl) Hss']; subst.
  apply NoDup_cons in Hdup as [Hfresh Hdup].
  destruct (py_setattr_stored h l a attr v Hl Hattr) as (a' & Hset & Hget).
  rewrite Hset.
  destruct (IH (<[l := a']> h) vs) as (h' & Hfw & Hread);
    [|done|by injection Hlen|].
  { eapply in_store_touched; [by eapply py_setattr_touched | done]. }
  exists h'. split; [done|].
  apply forward_writes_touched in Hfw as Hframe.
  destruct (Hframe l) as [Hsame _].
  rewrite lookup_insert_eq in Hsame.
  assert (py_getattr h' (VAxis l) attr = Ok v) as Hback.
  { unfold py_getattr, deref. rewrite Hsame; [done|].
    intros Hin. apply Hfresh.
    apply list_elem_of_fmap in Hin as ([s w] & -> & Hin).
    by apply elem_of_zip_l in Hin. }
  by rewrite Hback, Hread.
Qed.

(** C7, amended. On a container built by the constructor, whose members
    live in the store and are pairwise distinct objects, for a name that
    the container does not define: writing as many values as there are axes
    returns, and reading the name back then gives the tuple of the values
    written. Writing a sequence of any other length raises the arity
    mismatch (after the writes to the members that have a value). *)
Theorem setattr_then_getattr (vs : list (value T)) (h : heap T)
    (self : AxesTuple T) (attr : string) (values : list (value T)) :
  AxesTuple_new vs = Ok self ->
  in_store h (items self) ->
  NoDup (items self) ->
  attr ∉ AxesTuple_class_attrs ->
  (length values = length (items self) ->
   exists h',
     AxesTuple_setattr h self attr values = (h', self, Ok ())
     /\ AxesTuple_access h' self attr = Ok (Forward values))
  /\ (length values <> length (items self) ->
      exists h',
        AxesTuple_setattr h self attr values = (h', self, Raise ArityMismatch)).
Proof.
  intros Hnew Hstore Hdup Hattr.
  apply AxesTuple_new_Ok in Hnew as [-> _]. cbn [items] in *.
  pose proof (capabilities_on_class _ Hattr) as Hcap.
  assert (attr <> "__class__") as Hclass.
  { intros ->. apply Hattr. unfold AxesTuple_class_attrs.
    apply list_elem_of_In. cbn. tauto. }
  split; intros Hlen; rewrite AxesTuple_setattr_forwards by done;
    cbn [items].
  - destruct (forward_writes_read_back h vs values attr)
      as (h' & -> & Hread); try done.
    exists h'. rewrite decide_True by done. split; [done|].
    unfold AxesTuple_access, AxesTuple_getattr. cbn [own items].
    rewrite lookup_empty, bool_decide_eq_false_2 by done.
    by rewrite Hread.
  - destruct (forward_writes_returns h vs values attr) as (h' & ->);
      try done.
    exists h'. by rewrite decide_False.
Qed.

(** The writes to members that may be one object several times: they all
    return, and afterwards every member reads the value written at the last
    position that holds it. *)
Lemma forward_writes_last_write (h : heap T) (ls : list loc)
    (values : list (value T)) (attr : string) :
  in_store h (VAxis <$> ls) ->
  attr ∉ axis_capabilities ->
  length values = length ls ->
  exists h' rs,
    forward_writes h (zip (VAxis <$> ls) values) attr = (h', Ok ())
    /\ each (fun s => py_getattr h' s attr) (VAxis <$> ls) = Ok rs
    /\ forall i l,
         ls !! i = Some l ->
         exists j v,
           ls !! j = Some l
           /\ (forall j', j < j' -> ls !! j' <> Some l)
           /\ values !! j = Some v
           /\ rs !! i = Some v.
Proof.
  intros Hstore Hattr Hlen.
  assert (exists h',
            forward_writes h (zip (VAxis <$> ls) values) attr = (h', Ok ())
            /\ forall l,
                 l ∈ ls ->
                 exists j v,
                   ls !! j = Some l
                   /\ (forall j', j < j' -> ls !! j' <> Some l)
                   /\ values !! j = Some v
                   /\ py_getattr h' (VAxis l) attr = Ok v) as (h' & Hfw & Hlast).
  { revert h values Hstore Hlen.
    induction ls as [|l0 ls IH]; intros h [|v0 vs] Hstore Hlen;
      try discriminate.
    { exists h. split; [done|]. by intros l ?%elem_of_nil. }
    cbn [fmap list_fmap] in Hstore.
    inversion Hstore as [|? ? Hhead Hstore']; subst.
    destruct Hhead as (l1 & a & Heq & Hl). injection Heq as <-.
    destruct (py_setattr_stored h l0 a attr v0 Hl Hattr) as (a' & Hset & Hget).
    destruct (IH (<[l0 := a']> h) vs) as (h' & Hfw & Hlast).
    { eapply in_store_touched; [by eapply py_setattr_touched | done]. }
    { by injection Hlen. }
    exists h'. split.
    { cbn [fmap list_fmap zip_with forward_writes]. by rewrite Hset. }
    intros l Hin. destruct (decide (l ∈ ls)) as [Hl'|Hl'].
    - destruct (Hlast l Hl') as (j & v & Hj & Hmax & Hv & Hread).
      exists (S j), v. repeat split; try done.
      intros [|j'] Hlt; [lia|]. cbn. apply Hmax. lia.
    - assert (l = l0) as -> by (apply elem_of_cons in Hin as [|]; done).
      exists 0, v0. repeat split; try done.
      + intros [|j'] Hlt; [lia|]. cbn. intros Hj'.
        apply Hl'. by eapply list_elem_of_lookup_2.
      + apply forward_writes_touched in Hfw. destruct (Hfw l0) as [Hsame _].
        unfold py_getattr, deref. rewrite Hsame.
        * by rewrite lookup_insert_eq.
        * intros Hin'. apply Hl'.
          apply list_elem_of_fmap in Hin' as ([s w] & Hs & Hin').
          apply elem_of_zip_l in Hin'. cbn in Hs. subst s.
          apply list_elem_of_fmap in Hin' as (l' & [= <-] & Hin'). done. }
  assert (Forall2 (fun l r => py_getattr h' (VAxis l) attr = Ok r) ls
            (omap (fun l => match py_getattr h' (VAxis l) attr with
                            | Ok r => Some r
                            | Raise _ => None
                            end) ls)) as Hrs.
  { clear Hfw. assert (forall l, l ∈ ls -> exists v,
                         py_getattr h' (VAxis l) attr = Ok v) as Hall.
    { intros l Hl. destruct (Hlast l Hl) as (_ & v & _ & _ & _ & Hv).
      by exists v. }
    clear Hlast Hlen Hstore.
    induction ls as [|l ls IH]; [constructor|].
    cbn [omap list_omap]. destruct (Hall l) as [v Hv]; [by left|].
    rewrite Hv. constructor; [done|]. apply IH.
    intros l' Hl'. apply Hall. by right. }
  eexists h', _. split; [exact Hfw|]. split.
  - rewrite each_fmap. apply each_Ok. exact Hrs.
  - intros i l Hi.
    destruct (Hlast l) as (j & v & Hj & Hmax & Hv & Hread);
      [by eapply list_elem_of_lookup_2|].
    exists j, v. repeat split; try done.
    destruct (Forall2_lookup_l _ _ _ _ _ Hrs Hi) as (r' & Hr' & Hread').
    rewrite Hr'. congruence.
Qed.



End RoundTrip.

(** ** Arrays: positions and broadcasting *)

Section ArrayFacts.
Context {T : Type}.

Lemma ravel_lt (sh idx : list nat) :
  in_range idx sh -> ravel sh idx < prod_shape sh.
Proof.
  induction 1 as [|j d idx sh Hj _ IH]; cbn; [lia|].
  fold (prod_shape sh). nia.
Qed.

Lemma unravel_ravel (sh idx : list nat) :
  in_range idx sh -> unravel sh (ravel sh idx) = idx.
Proof.
  induction 1 as [|j d idx sh Hj Hrest IH]; cbn; [done|].
  pose proof (ravel_lt _ _ Hrest) as Hlt.
  f_equal.
  - symmetry. apply (Nat.div_unique _ _ _ (ravel sh idx)); lia.
  - rewrite <- IH at 2. f_equal.
    symmetry. apply (Nat.mod_unique _ _ j); lia.
Qed.

Lemma unravel_in_range (sh : list nat) (k : nat) :
  k < prod_shape sh -> in_range (unravel sh k) sh.
Proof.
  revert k. induction sh as [|d sh IH]; intros k Hk; cbn; [constructor|].
  cbn in Hk. fold (prod_shape sh) in Hk.
  assert (prod_shape sh <> 0) as Hpos by nia.
  constructor.
  - apply Nat.Div0.div_lt_upper_bound; lia.
  - apply IH. by apply Nat.mod_upper_bound.
Qed.

(** [compatible ash sh]: an array of shape [ash] can be broadcast to the
    shape [sh]. *)
Definition compatible (ash sh : list nat) : Prop :=
  length ash <= length sh
  /\ Forall2 (fun d e => d = 1 \/ d = e) ash (drop (length sh - length ash) sh).

Lemma bcast_index_in_range (ash sh idx : list nat) :
  compatible ash sh -> in_range idx sh -> in_range (bcast_index ash idx) ash.
Proof.
  intros [Hlen Hcomp] Hidx. unfold bcast_index.
  rewrite (Forall2_length _ _ _ Hidx).
  apply (Forall2_drop _ _ _ (length sh - length ash)) in Hidx.
  revert Hcomp Hidx. generalize (drop (length sh - length ash) sh) as sh'.
  generalize (drop (length sh - length ash) idx) as idx'. clear.
  intros idx' sh' Hcomp. revert idx'.
  induction Hcomp as [|d e ash sh' Hde _ IH]; intros idx' Hidx;
    inversion Hidx as [|j ? idx'' ? Hj Hidx']; subst; cbn; constructor.
  - destruct (Nat.eqb_spec d 1); lia.
  - by apply IH.
Qed.

Lemma bcast_index_same (sh idx : list nat) :
  in_range idx sh -> bcast_index sh idx = idx.
Proof.
  intros Hidx. unfold bcast_index.
  rewrite (Forall2_length _ _ _ Hidx), Nat.sub_diag, drop_0.
  induction Hidx as [|j d idx sh Hj _ IH]; cbn; [done|].
  rewrite IH. f_equal. destruct (Nat.eqb_spec d 1); lia.
Qed.

Lemma compatible_refl (sh : list nat) : compatible sh sh.
Proof.
  split; [done|]. rewrite Nat.sub_diag, drop_0.
  induction sh as [|d sh IH]; constructor; [by right | done].
Qed.

Lemma omap_total_lookup {A B} (f : A -> option B) (l : list A) (i : nat) (x : A) :
  (forall y, y ∈ l -> is_Some (f y)) -> l !! i = Some x -> omap f l !! i = f x.
Proof.
  revert i. induction l as [|z l IH]; intros i Hf Hi; [done|].
  cbn. destruct (Hf z) as [b Hb]; [by left|]. rewrite Hb.
  destruct i as [|i]; cbn in *.
  - congruence.
  - apply IH; [|done]. intros y Hy. apply Hf. by right.
Qed.

Lemma omap_total_length {A B} (f : A -> option B) (l : list A) :
  (forall y, y ∈ l -> is_Some (f y)) -> length (omap f l) = length l.
Proof.
  induction l as [|z l IH]; intros Hf; [done|].
  cbn. destruct (Hf z) as [b Hb]; [by left|]. rewrite Hb. cbn.
  rewrite IH; [done|]. intros y Hy. apply Hf. by right.
Qed.

Lemma nd_get_is_Some (a : ndarray T) (idx : list nat) :
  nd_wf a -> in_range idx (shape a) -> is_Some (nd_get a idx).
Proof.
  intros Hwf Hidx. unfold nd_get. rewrite bool_decide_eq_true_2 by done.
  apply lookup_lt_is_Some. rewrite Hwf. by apply ravel_lt.
Qed.

Lemma broadcast_to_source (a : ndarray T) (sh : list nat) (k : nat) :
  nd_wf a -> compatible (shape a) sh -> k ∈ seq 0 (prod_shape sh) ->
  is_Some (nd_get a (bcast_index (shape a) (unravel sh k))).
Proof.
  intros Hwf Hcomp Hk. apply elem_of_seq in Hk.
  apply nd_get_is_Some; [done|].
  eapply bcast_index_in_range; [done|]. apply unravel_in_range. lia.
Qed.

Lemma broadcast_to_wf (a : ndarray T) (sh : list nat) :
  nd_wf a -> compatible (shape a) sh -> nd_wf (broadcast_to a sh).
Proof.
  intros Hwf Hcomp. unfold nd_wf, broadcast_to. cbn.
  rewrite omap_total_length, length_seq; [done|].
  intros k Hk. by apply broadcast_to_source.
Qed.

(** An element of the broadcast array is the element of the source at the
    index with the broadcast dimensions put back to 0. *)
Lemma nd_get_broadcast_to (a : ndarray T) (sh idx : list nat) :
  nd_wf a -> compatible (shape a) sh -> in_range idx sh ->
  nd_get (broadcast_to a sh) idx = nd_get a (bcast_index (shape a) idx).
Proof.
  intros Hwf Hcomp Hidx. unfold nd_get at 1, broadcast_to. cbn.
  rewrite bool_decide_eq_true_2 by done.
  pose proof (ravel_lt _ _ Hidx) as Hlt.
  rewrite (omap_total_lookup _ _ _ (ravel sh idx)).
  - by rewrite unravel_ravel.
  - intros k Hk. by apply broadcast_to_source.
  - by apply lookup_seq_lt.
Qed.

Lemma nd_get_broadcast (a : ndarray T) (sh idx : list nat) :
  nd_wf a -> compatible (shape a) sh -> in_range idx sh ->
  nd_get (if bool_decide (shape a = sh) then a else broadcast_to a sh) idx
  = nd_get a (bcast_index (shape a) idx).
Proof.
  intros Hwf Hcomp Hidx. case_bool_decide as Heq.
  - rewrite bcast_index_same; [done|]. by rewrite Heq.
  - by apply nd_get_broadcast_to.
Qed.

End ArrayFacts.

(** ** Common shapes *)

Section Shapes.
Context {T : Type}.

Lemma bdim_same d : bdim d d = Some d.
Proof. unfold bdim. by rewrite Nat.eqb_refl. Qed.

Lemma bdim_1_r d : bdim d 1 = Some d.
Proof. unfold bdim. by destruct (Nat.eqb_spec d 1) as [->|]. Qed.

Lemma bdim_1_l d : bdim 1 d = Some d.
Proof. unfold bdim. by destruct (Nat.eqb_spec 1 d) as [<-|]. Qed.

Lemma bzip_same sh : bzip sh sh = Some sh.
Proof.
  induction sh as [|d sh IH]; [done|]. cbn. by rewrite bdim_same, IH.
Qed.

Lemma bzip_ones_r sh : bzip sh (replicate (length sh) 1) = Some sh.
Proof.
  induction sh as [|d sh IH]; [done|]. cbn. by rewrite bdim_1_r, IH.
Qed.

Lemma bzip_ones_l sh : bzip (replicate (length sh) 1) sh = Some sh.
Proof.
  induction sh as [|d sh IH]; [done|]. cbn. by rewrite bdim_1_l, IH.
Qed.

Lemma bzip_app a1 a2 b1 b2 c1 c2 :
  bzip a1 b1 = Some c1 -> bzip a2 b2 = Some c2 ->
  bzip (a1 ++ a2) (b1 ++ b2) = Some (c1 ++ c2).
Proof.
  revert b1 c1. induction a1 as [|x a1 IH]; intros [|y b1] c1; cbn; try done.
  - by intros [= <-].
  - destruct (bdim x y) as [d|]; [|done]. cbn.
    destruct (bzip a1 b1) as [r|] eqn:Hr; [|done]. cbn.
    intros [= <-] H2. by rewrite (IH _ _ Hr H2).
Qed.

Lemma bshape2_same_length a b :
  length a = length b -> bshape2 a b = bzip a b.
Proof.
  intros Hlen. unfold bshape2, pad.
  rewrite <- Hlen, Nat.max_id, Nat.sub_diag. done.
Qed.

Lemma bshape2_same sh : bshape2 sh sh = Some sh.
Proof. rewrite bshape2_same_length by done. apply bzip_same. Qed.

Lemma bshape2_nil_r sh : bshape2 sh [] = Some sh.
Proof.
  unfold bshape2, pad. cbn [length].
  rewrite Nat.max_0_r, Nat.sub_diag, Nat.sub_0_r, app_nil_r. cbn [replicate app].
  apply bzip_ones_r.
Qed.

Lemma broadcast_shape_cons (s : list nat) (shs : list (list nat)) :
  broadcast_shape (T:=T) (s :: shs)
  = r ← broadcast_shape shs;
    match bshape2 s r with
    | Some c => Ok c
    | None => Raise shape_mismatch
    end.
Proof. done. Qed.

Lemma broadcast_shape_same (sh : list nat) (shs : list (list nat)) :
  shs <> [] -> Forall (fun s => s = sh) shs ->
  broadcast_shape (T:=T) shs = Ok sh.
Proof.
  induction shs as [|s shs IH]; [done|]. intros _ Hall.
  inversion Hall as [|? ? -> Hrest]; subst.
  rewrite broadcast_shape_cons.
  destruct shs as [|s' shs'].
  - cbn. by rewrite bshape2_nil_r.
  - rewrite IH by done. cbn. by rewrite bshape2_same.
Qed.

Lemma keep_same_shape (sh : list nat) (bs : list (ndarray T)) :
  Forall (fun b => shape b = sh) bs ->
  (fun a => if bool_decide (shape a = sh) then a else broadcast_to a sh) <$> bs
  = bs.
Proof.
  induction 1 as [|b bs Hb _ IH]; [done|].
  cbn. rewrite bool_decide_eq_true_2 by done. by f_equal.
Qed.

Lemma broadcast_arrays_Ok (args bs : list (ndarray T)) :
  broadcast_arrays args = Ok bs ->
  exists sh,
    broadcast_shape (T:=T) (shape <$> args) = Ok sh
    /\ bs = (fun a => if bool_decide (shape a = sh) then a
                      else broadcast_to a sh) <$> args
    /\ Forall (fun b => shape b = sh) bs.
Proof.
  unfold broadcast_arrays.
  destruct (broadcast_shape (shape <$> args)) as [sh|e]; [|done].
  cbn. intros [= <-]. exists sh. repeat split.
  apply Forall_fmap, Forall_forall. intros a _. cbn.
  by case_bool_decide.
Qed.

Lemma broadcast_arrays_same_shape (sh : list nat) (args : list (ndarray T)) :
  Forall (fun a => shape a = sh) args -> broadcast_arrays args = Ok args.
Proof.
  intros Hall. destruct args as [|a args]; [done|].
  unfold broadcast_arrays.
  rewrite (broadcast_shape_same sh); [| done |].
  - cbn [mbind res_mbind res_bind]. by rewrite keep_same_shape.
  - by apply Forall_fmap.
Qed.

(** C6. Broadcasting what [broadcast()] returned returns the very same
    members, shapes and elements alike; the members that [broadcast()]
    returns are as many as the members it is called on and are all of one
    shape; and members that are all of one shape already come back as they
    are. *)
Theorem broadcast_idempotent (self : list (ndarray T)) :
  (forall bs,
     ArrayTuple_broadcast self = Ok bs ->
     ArrayTuple_broadcast bs = Ok bs
     /\ length bs = length self
     /\ exists sh, Forall (fun b => shape b = sh) bs)
  /\ (forall sh,
        Forall (fun a => shape a = sh) self ->
        ArrayTuple_broadcast self = Ok self).
Proof.
  unfold ArrayTuple_broadcast. split.
  - intros bs Hbs.
    destruct (broadcast_arrays_Ok _ _ Hbs) as (sh & _ & Heq & Hall).
    split; [by eapply broadcast_arrays_same_shape|].
    split; [|by exists sh].
    by rewrite Heq, length_fmap.
  - intros sh. apply (broadcast_arrays_same_shape sh).
Qed.

End Shapes.

(** ** Sparse grids *)

Section Grids.
Context {T : Type}.

(** The shape of rank [K] with [n] along dimension [i] and 1 elsewhere. *)
Definition onehot (K i n : nat) : list nat :=
  take i (replicate K 1) ++ n :: drop (S i) (replicate K 1).

(** The arrays of a sparse grid over [K] sequences, from position [p] on. *)
Fixpoint sparse_from (K p : nat) (xs : list (list T)) : list (ndarray T) :=
  match xs with
  | [] => []
  | x :: xs' => mk_nd (onehot K p (length x)) x :: sparse_from K (S p) xs'
  end.

Lemma onehot_replicate (K i n : nat) :
  i < K -> onehot K i n = replicate i 1 ++ n :: replicate (K - S i) 1.
Proof.
  intros Hi. unfold onehot. rewrite take_replicate, drop_replicate.
  by rewrite Nat.min_l by lia.
Qed.

Lemma imap_sparse_from (K p : nat) (xs : list (list T)) :
  imap (fun i x => reshape x (take (p + i) (replicate K 1)
                              ++ length x :: drop (S (p + i)) (replicate K 1)))
       xs
  = sparse_from K p xs.
Proof.
  revert p. induction xs as [|x xs IH]; intros p; [done|].
  cbn [imap sparse_from]. rewrite Nat.add_0_r. f_equal.
  rewrite <- IH. apply imap_ext. intros i y _. cbn.
  by replace (p + S i) with (S p + i) by lia.
Qed.

Lemma meshgrid_sparse_ij (xs : list (list T)) :
  meshgrid xs true IJ = Ok (sparse_from (length xs) 0 xs).
Proof. unfold meshgrid. by rewrite <- (imap_sparse_from _ 0). Qed.

Lemma length_sparse_from (K p : nat) (xs : list (list T)) :
  length (sparse_from K p xs) = length xs.
Proof. revert p. induction xs as [|x xs IH]; intros p; cbn; [done|]. by rewrite IH. Qed.

Lemma lookup_sparse_from (K p i : nat) (xs : list (list T)) (x : list T) :
  xs !! i = Some x ->
  sparse_from K p xs !! i = Some (mk_nd (onehot K (p + i) (length x)) x).
Proof.
  revert p i. induction xs as [|y xs IH]; intros p [|i] Hi; try done.
  - injection Hi as ->. cbn [sparse_from]. by rewrite Nat.add_0_r.
  - replace (p + S i) with (S p + i) by lia. exact (IH (S p) i Hi).
Qed.

Lemma prod_shape_ones (q : nat) : prod_shape (replicate q 1) = 1.
Proof.
  unfold prod_shape. induction q as [|q IH]; cbn [replicate foldr]; lia.
Qed.

Lemma prod_shape_app (a b : list nat) :
  prod_shape (a ++ b) = prod_shape a * prod_shape b.
Proof.
  unfold prod_shape. induction a as [|d a IH]; cbn [app foldr]; [lia|].
  rewrite IH. lia.
Qed.

Lemma prod_shape_onehot (K i n : nat) : i < K -> prod_shape (onehot K i n) = n.
Proof.
  intros Hi. rewrite onehot_replicate, prod_shape_app by done. cbn.
  fold (prod_shape (replicate (K - S i) 1)). rewrite !prod_shape_ones. lia.
Qed.

Lemma ravel_ones (q : nat) (idx : list nat) :
  in_range idx (replicate q 1) -> ravel (replicate q 1) idx = 0.
Proof.
  revert idx. induction q as [|q IH]; intros idx Hidx; [by destruct idx|].
  cbn in Hidx. inversion Hidx as [|j ? idx' ? Hj Hrest]; subst. cbn.
  rewrite (IH _ Hrest). lia.
Qed.

(** In an array of a one-hot shape, the position of an index is its
    coordinate along the one dimension that is not 1. *)
Lemma ravel_onehot (i n q j : nat) (idx : list nat) :
  in_range idx (replicate i 1 ++ n :: replicate q 1) ->
  idx !! i = Some j ->
  ravel (replicate i 1 ++ n :: replicate q 1) idx = j.
Proof.
  revert idx. induction i as [|i IH]; intros idx Hidx Hj; cbn in *.
  - inversion Hidx as [|j' ? idx' ? Hlt Hrest]; subst. cbn in Hj.
    injection Hj as ->. cbn. fold (prod_shape (replicate q 1)).
    rewrite prod_shape_ones, (ravel_ones _ _ Hrest). lia.
  - inversion Hidx as [|j' ? idx' ? Hlt Hrest]; subst. cbn in Hj. cbn.
    rewrite (IH _ Hrest Hj). lia.
Qed.

(** The common shape of the arrays of a sparse grid. *)
Lemma broadcast_shape_sparse_from (K p : nat) (xs : list (list T)) :
  K = p + length xs ->
  broadcast_shape (T:=T) (shape <$> sparse_from K p xs)
  = Ok (match xs with
        | [] => []
        | _ => replicate p 1 ++ (length <$> xs)
        end).
Proof.
  revert p. induction xs as [|x xs IH]; intros p HK; [done|].
  cbn [sparse_from fmap list_fmap shape]. rewrite broadcast_shape_cons.
  rewrite (IH (S p)) by (cbn in HK; lia).
  cbn [mbind res_mbind res_bind]. cbn [length] in HK.
  rewrite onehot_replicate by lia.
  replace (K - S p) with (length xs) by lia.
  destruct xs as [|y xs].
  - cbn [length replicate fmap list_fmap]. by rewrite bshape2_nil_r.
  - rewrite bshape2_same_length.
    2:{ rewrite !length_app. cbn [length].
        rewrite !length_replicate, length_fmap. cbn [length]. lia. }
    change (replicate (S p) 1) with (1 :: replicate p 1).
    rewrite replicate_cons_app, <- app_assoc. cbn [app].
    rewrite (bzip_app _ _ _ _ (replicate p 1)
               (length x :: (length <$> y :: xs))); [done | apply bzip_same |].
    cbn [bzip]. rewrite bdim_1_r. cbn [mbind option_bind].
    rewrite <- (length_fmap length (y :: xs)) at 1.
    by rewrite bzip_ones_l.
Qed.

Lemma length_onehot_form (i n q : nat) :
  length (replicate i 1 ++ n :: replicate q 1) = i + S q.
Proof. rewrite length_app. cbn [length]. by rewrite !length_replicate. Qed.

Lemma lookup_onehot_form (i n q k d : nat) :
  (replicate i 1 ++ n :: replicate q 1) !! k = Some d ->
  (k = i /\ d = n) \/ (k <> i /\ d = 1).
Proof.
  intros Hd. destruct (decide (k < i)) as [Hk|Hk].
  - rewrite lookup_app_l in Hd by (rewrite length_replicate; lia).
    apply lookup_replicate in Hd as [-> _]. right. split; [lia | done].
  - rewrite lookup_app_r, length_replicate in Hd
      by (rewrite length_replicate; lia).
    destruct (k - i) as [|m] eqn:Hm; cbn in Hd.
    + left. split; [lia | congruence].
    + apply lookup_replicate in Hd as [-> _]. right. split; [lia | done].
Qed.

Lemma compatible_onehot (i : nat) (ns : list nat) (n : nat) :
  ns !! i = Some n -> compatible (onehot (length ns) i n) ns.
Proof.
  intros Hi. pose proof (lookup_lt_Some _ _ _ Hi) as Hlt.
  rewrite onehot_replicate by done. unfold compatible.
  rewrite length_onehot_form.
  replace (length ns - (i + S (length ns - S i))) with 0 by lia.
  rewrite drop_0. split; [lia|].
  apply Forall2_same_length_lookup. split.
  - rewrite length_onehot_form. lia.
  - intros k d e Hd He.
    apply lookup_onehot_form in Hd as [[-> ->]|[_ ->]]; [right | by left].
    congruence.
Qed.

Lemma lookup_bcast_index_onehot (i n q j : nat) (ns idx : list nat) :
  in_range idx ns -> length ns = i + S q -> ns !! i = Some n ->
  idx !! i = Some j ->
  bcast_index (replicate i 1 ++ n :: replicate q 1) idx !! i = Some j.
Proof.
  intros Hidx Hlen Hn Hj. unfold bcast_index.
  rewrite length_onehot_form, (Forall2_length _ _ _ Hidx), Hlen.
  rewrite Nat.sub_diag, drop_0, lookup_zip_with, Hj.
  rewrite lookup_app_r, length_replicate, Nat.sub_diag
    by (rewrite length_replicate; lia).
  cbn. f_equal.
  destruct (Nat.eqb_spec n 1) as [->|]; [|done].
  pose proof (Forall2_lookup_lr _ _ _ _ _ _ Hidx Hj Hn). lia.
Qed.

(** An element of a member of the broadcast grid is the entry of the
    member's sequence at the coordinate along the member's own dimension. *)
Lemma nd_get_grid (i : nat) (xs : list (list T)) (x : list T)
    (idx : list nat) (j : nat) :
  xs !! i = Some x -> in_range idx (length <$> xs) -> idx !! i = Some j ->
  let a := mk_nd (onehot (length xs) i (length x)) x in
  let b := if bool_decide (shape a = length <$> xs) then a
           else broadcast_to a (length <$> xs) in
  nd_get b idx = x !! j /\ nd_get a (bcast_index (shape a) idx) = x !! j.
Proof.
  intros Hx Hidx Hj a b.
  pose proof (lookup_lt_Some _ _ _ Hx) as Hlt.
  assert ((length <$> xs) !! i = Some (length x)) as Hn
    by by rewrite list_lookup_fmap, Hx.
  assert (nd_wf a) as Hwf
    by (unfold nd_wf, a; cbn; by rewrite prod_shape_onehot).
  assert (compatible (shape a) (length <$> xs)) as Hcomp.
  { unfold a. cbn. rewrite <- (length_fmap length xs).
    by apply compatible_onehot. }
  assert (nd_get a (bcast_index (shape a) idx) = x !! j) as Hsparse.
  { pose proof (bcast_index_in_range _ _ _ Hcomp Hidx) as Hin.
    unfold nd_get. rewrite bool_decide_eq_true_2 by done.
    unfold a in *. cbn [shape data] in *.
    rewrite onehot_replicate in * by done.
    rewrite (ravel_onehot _ _ _ j); [done | done |].
    eapply lookup_bcast_index_onehot; [done | | done | done].
    rewrite length_fmap. lia. }
  split; [|done].
  unfold b. by rewrite nd_get_broadcast.
Qed.

End Grids.

(** ** Grid properties *)

Section GridProperties.
Context {T : Type}.

(** The members are axes of the store whose sequences, as [sel] reads them,
    are [xs]. *)
Definition has_seqs (sel : Axis T -> list T) (h : heap T)
    (vs : list (value T)) (xs : list (list T)) : Prop :=
  Forall2 (fun s x => exists l a, s = VAxis l /\ h !! l = Some a /\ sel a = x)
          vs xs.

(** [arrs] is the sparse grid of the sequences [xs]: one array per sequence,
    in order; array [i] holds sequence [i] in a shape of rank [length xs]
    that is the length of the sequence along dimension [i] and 1 along every
    other dimension; and [broadcast()] gives as many arrays, each of the
    shape made of the lengths of all the sequences, whose element at an
    index is the element of the sparse array at that index with the
    coordinates of the dimensions of size 1 put to 0, that is, the entry of
    sequence [i] at coordinate [i] of the index. *)
Definition is_sparse_grid (xs : list (list T)) (arrs : list (ndarray T))
  : Prop :=
  length arrs = length xs
  /\ (forall i x,
        xs !! i = Some x ->
        arrs !! i
        = Some (mk_nd (<[i := length x]> (replicate (length xs) 1)) x))
  /\ exists bs,
       ArrayTuple_broadcast arrs = Ok bs
       /\ length bs = length xs
       /\ forall i x a,
            xs !! i = Some x -> arrs !! i = Some a ->
            exists b,
              bs !! i = Some b
              /\ shape b = length <$> xs
              /\ forall idx j,
                   in_range idx (length <$> xs) -> idx !! i = Some j ->
                   nd_get b idx = nd_get a (bcast_index (shape a) idx)
                   /\ nd_get b idx = x !! j.

Lemma has_seqs_each sel (h : heap T) vs xs :
  has_seqs sel h vs xs ->
  each (fun s => '(_, a) ← deref h s; Ok (sel a)) vs = Ok xs.
Proof.
  intros Hseqs. apply each_Ok. eapply Forall2_impl; [exact Hseqs|].
  intros s x (l & a & -> & Hl & <-). unfold deref. by rewrite Hl.
Qed.

Lemma onehot_insert (K i n : nat) :
  i < K -> onehot K i n = <[i := n]> (replicate K 1).
Proof.
  intros Hi. unfold onehot. symmetry. apply insert_take_drop.
  by rewrite length_replicate.
Qed.

Lemma broadcast_arrays_sparse (xs : list (list T)) :
  broadcast_arrays (sparse_from (length xs) 0 xs)
  = Ok ((fun a => if bool_decide (shape a = length <$> xs) then a
                  else broadcast_to a (length <$> xs))
          <$> sparse_from (length xs) 0 xs).
Proof.
  unfold broadcast_arrays.
  rewrite broadcast_shape_sparse_from by done.
  by destruct xs.
Qed.

Lemma sparse_from_is_sparse_grid (xs : list (list T)) :
  is_sparse_grid xs (sparse_from (length xs) 0 xs).
Proof.
  split; [apply length_sparse_from|]. split.
  - intros i x Hx. pose proof (lookup_lt_Some _ _ _ Hx) as Hlt.
    rewrite (lookup_sparse_from _ _ _ _ _ Hx). cbn [Nat.add].
    by rewrite onehot_insert.
  - eexists. split; [apply broadcast_arrays_sparse|].
    split; [by rewrite length_fmap, length_sparse_from|].
    intros i x a Hx Ha.
    rewrite (lookup_sparse_from _ _ _ _ _ Hx) in Ha. cbn [Nat.add] in Ha.
    injection Ha as <-.
    eexists. split.
    { rewrite list_lookup_fmap, (lookup_sparse_from _ _ _ _ _ Hx). done. }
    split.
    { cbn [Nat.add]. by case_bool_decide. }
    intros idx j Hidx Hj. cbn [Nat.add].
    destruct (nd_get_grid i xs x idx j Hx Hidx Hj) as [Hb Ha].
    cbn zeta in Hb, Ha. by rewrite Hb, Ha.
Qed.

Lemma grid_is_sparse_grid sel (h : heap T) (self : AxesTuple T) xs :
  has_seqs sel h (items self) xs ->
  exists arrs,
    (gen ← each (fun s => '(_, a) ← deref h s; Ok (sel a)) (items self);
     meshgrid gen (sparse _MGRIDOPTS) (indexing_ _MGRIDOPTS)) = Ok arrs
    /\ is_sparse_grid xs arrs.
Proof.
  intros Hseqs. rewrite (has_seqs_each _ _ _ _ Hseqs).
  exists (sparse_from (length xs) 0 xs). split.
  - apply meshgrid_sparse_ij.
  - apply sparse_from_is_sparse_grid.
Qed.

(** C1, amended. Over [K] axes of the store, each of [centers], [edges] and
    [widths] returns the sparse grid of the axes' sequences of that name:
    [K] arrays in the order of the axes, array [i] of rank [K] with the
    number of entries of the sequence of axis [i] along dimension [i] and 1
    along every other dimension; [broadcast()] on it gives [K] arrays of the
    shape made of these numbers of entries, each element being the sparse
    value repeated along the dimensions of size 1. *)
Theorem grid_properties (h : heap T) (self : AxesTuple T)
    (cs es ws : list (list T)) :
  has_seqs ax_centers h (items self) cs ->
  has_seqs ax_edges h (items self) es ->
  has_seqs ax_widths h (items self) ws ->
  (exists arrs, AxesTuple_centers h self = Ok arrs /\ is_sparse_grid cs arrs)
  /\ (exists arrs, AxesTuple_edges h self = Ok arrs /\ is_sparse_grid es arrs)
  /\ (exists arrs, AxesTuple_widths h self = Ok arrs /\ is_sparse_grid ws arrs).
Proof.
  intros Hc He Hw. repeat split.
  - exact (grid_is_sparse_grid ax_centers h self cs Hc).
  - exact (grid_is_sparse_grid ax_edges h self es He).
  - exact (grid_is_sparse_grid ax_widths h self ws Hw).
Qed.

End GridProperties.

(** ** The broadcast members and their stack *)

Section Stack.
Context {T : Type}.

Lemma Forall2_compose {A B C} (P : A -> B -> Prop) (Q : B -> C -> Prop)
    (R : A -> C -> Prop) (l : list A) (k : list B) (m : list C) :
  (forall x y z, P x y -> Q y z -> R x z) ->
  Forall2 P l k -> Forall2 Q k m -> Forall2 R l m.
Proof.
  intros HPQ HP. revert m.
  induction HP as [|x y l k Hxy _ IH]; intros m HQ;
    inversion HQ as [|? z ? m' Hyz Hrest]; subst; constructor; eauto.
Qed.

Lemma bdim_Some x y d :
  bdim x y = Some d -> (x = 1 \/ x = d) /\ (y = 1 \/ y = d).
Proof.
  unfold bdim.
  destruct (Nat.eqb_spec x y), (Nat.eqb_spec x 1), (Nat.eqb_spec y 1);
    intros [= <-]; lia.
Qed.

Lemma bzip_Some a b s :
  bzip a b = Some s ->
  Forall2 (fun d e => d = 1 \/ d = e) a s
  /\ Forall2 (fun d e => d = 1 \/ d = e) b s.
Proof.
  revert b s. induction a as [|x a IH]; intros [|y b] s; cbn; try done.
  - intros [= <-]. split; constructor.
  - destruct (bdim x y) as [d|] eqn:Hd; [|done]. cbn.
    destruct (bzip a b) as [r|] eqn:Hr; [|done]. cbn.
    intros [= <-]. destruct (IH _ _ Hr) as [Ha Hb].
    destruct (bdim_Some _ _ _ Hd) as [Hx Hy].
    split; by constructor.
Qed.

Lemma compatible_pad (n : nat) (a s : list nat) :
  length a <= n ->
  Forall2 (fun d e => d = 1 \/ d = e) (pad n a) s -> compatible a s.
Proof.
  intros Hn Hall. pose proof (Forall2_length _ _ _ Hall) as Hlen.
  unfold pad in *. rewrite length_app, length_replicate in Hlen.
  split; [lia|].
  apply (Forall2_drop _ _ _ (n - length a)) in Hall.
  rewrite drop_app_length' in Hall by by rewrite length_replicate.
  by replace (length s - length a) with (n - length a) by lia.
Qed.

Lemma bshape2_Some a b s :
  bshape2 a b = Some s -> compatible a s /\ compatible b s.
Proof.
  unfold bshape2. intros [Ha Hb]%bzip_Some.
  split; apply (compatible_pad (length a `max` length b)); try done; lia.
Qed.

Lemma compatible_trans a b c :
  compatible a b -> compatible b c -> compatible a c.
Proof.
  intros [Hab Rab] [Hbc Rbc]. split; [lia|].
  apply (Forall2_drop _ _ _ (length b - length a)) in Rbc.
  rewrite drop_drop in Rbc.
  replace (length c - length b + (length b - length a))
    with (length c - length a) in Rbc by lia.
  eapply Forall2_compose; [|exact Rab|exact Rbc].
  intros x y z; cbn. lia.
Qed.

Lemma broadcast_shape_compatible (shs : list (list nat)) (sh : list nat) :
  broadcast_shape (T:=T) shs = Ok sh -> Forall (fun s => compatible s sh) shs.
Proof.
  revert sh. induction shs as [|s shs IH]; intros sh; [constructor|].
  rewrite broadcast_shape_cons.
  destruct (broadcast_shape shs) as [r|e]; [|done]. cbn.
  destruct (bshape2 s r) as [c|] eqn:Hc; [|done].
  intros [= <-]. destruct (bshape2_Some _ _ _ Hc) as [Hs Hr].
  constructor; [done|].
  specialize (IH r eq_refl).
  eapply Forall_impl; [exact IH|].
  intros s' Hs'. exact (compatible_trans _ _ _ Hs' Hr).
Qed.

(** The members that [np.broadcast_arrays] returns for well-formed arrays:
    as many as the arguments, well-formed, all of the common shape, and
    member [i] holds at an index the element of argument [i] at that index
    with the broadcast dimensions put back to 0. *)
Lemma broadcast_arrays_members (args bs : list (ndarray T)) :
  Forall nd_wf args -> broadcast_arrays args = Ok bs ->
  exists sh,
    length bs = length args
    /\ Forall (fun b => shape b = sh /\ nd_wf b) bs
    /\ forall i a,
         args !! i = Some a ->
         compatible (shape a) sh
         /\ exists b,
              bs !! i = Some b
              /\ forall idx,
                   in_range idx sh ->
                   nd_get b idx = nd_get a (bcast_index (shape a) idx).
Proof.
  intros Hwf Hbs.
  destruct (broadcast_arrays_Ok _ _ Hbs) as (sh & Hsh & -> & Hall).
  apply broadcast_shape_compatible in Hsh.
  rewrite Forall_fmap in Hsh.
  exists sh. split; [by rewrite length_fmap|]. split.
  - apply Forall_fmap, Forall_forall. intros a Ha. cbn.
    pose proof (proj1 (Forall_forall _ _) Hwf a Ha) as Hwa.
    pose proof (proj1 (Forall_forall _ _) Hsh a Ha) as Hca. cbn in Hca.
    case_bool_decide; [done|].
    split; [done | by apply broadcast_to_wf].
  - intros i a Ha.
    pose proof (Forall_lookup_1 _ _ _ _ Hwf Ha) as Hwa.
    pose proof (Forall_lookup_1 _ _ _ _ Hsh Ha) as Hca. cbn in Hca.
    split; [done|]. eexists. split.
    + by rewrite list_lookup_fmap, Ha.
    + intros idx Hidx. by apply nd_get_broadcast.
Qed.

Lemma lookup_concat_uniform {A} (ls : list (list A)) (m i r : nat) :
  Forall (fun l => length l = m) ls -> r < m ->
  concat ls !! (i * m + r) = ls !! i ≫= (fun l => l !! r).
Proof.
  intros Hall Hr. revert i. induction Hall as [|l ls Hl _ IH]; intros i.
  - done.
  - cbn [concat]. destruct i as [|i].
    + cbn. rewrite lookup_app_l by lia. done.
    + rewrite lookup_app_r by lia.
      replace (S i * m + r - length l) with (i * m + r) by lia.
      apply IH.
Qed.

Lemma length_concat_uniform {A} (ls : list (list A)) (m : nat) :
  Forall (fun l => length l = m) ls -> length (concat ls) = length ls * m.
Proof.
  induction 1 as [|l ls Hl _ IH]; [done|].
  cbn [concat length]. rewrite length_app, IH. lia.
Qed.

(** The stack of [K] well-formed arrays of one shape [sh] is the
    well-formed array of shape [(K, *sh)] whose element at [(i, *idx)] is
    the element of array [i] at [idx]. *)
Lemma np_stack_members (bs : list (ndarray T)) (sh : list nat) :
  bs <> [] -> Forall (fun b => shape b = sh /\ nd_wf b) bs ->
  shape (np_stack bs) = length bs :: sh
  /\ nd_wf (np_stack bs)
  /\ forall i b idx,
       bs !! i = Some b -> in_range idx sh ->
       nd_get (np_stack bs) (i :: idx) = nd_get b idx.
Proof.
  intros Hne Hall. destruct bs as [|b0 bs']; [done|].
  set (bs := b0 :: bs') in *.
  assert (shape b0 = sh) as Hb0 by (inversion Hall; tauto).
  assert (Forall (fun l => length l = prod_shape sh) (data <$> bs)) as Hlens.
  { apply Forall_fmap. eapply Forall_impl; [exact Hall|].
    intros b [Hs Hw]. cbn. unfold nd_wf in Hw. by rewrite <- Hs. }
  assert (shape (np_stack bs) = length bs :: sh) as Hshape
    by (unfold np_stack, bs; cbn [shape]; by rewrite Hb0).
  split; [done|]. split.
  - unfold nd_wf. rewrite Hshape. unfold np_stack, bs. cbn [data].
    fold bs. rewrite (length_concat_uniform _ _ Hlens), length_fmap. done.
  - intros i b idx Hb Hidx.
    pose proof (Forall_lookup_1 _ _ _ _ Hall Hb) as [Hs Hw].
    pose proof (lookup_lt_Some _ _ _ Hb) as Hi.
    unfold nd_get. rewrite Hshape, Hs.
    rewrite !bool_decide_eq_true_2; [|done|by constructor].
    unfold np_stack, bs. cbn [data ravel]. fold bs.
    rewrite (lookup_concat_uniform _ _ _ _ Hlens) by by apply ravel_lt.
    by rewrite list_lookup_fmap, Hb.
Qed.

End Stack.

(** ** Reductions *)

Section ReductionProperties.
Context {T : Type} `{Scalar T}.

(** A per-member result as an element of an array: a boolean counts as 1
    or 0. *)
Definition scalar_of (v : value T) : option T :=
  match v with
  | VNum x => Some x
  | VBool b => Some (if b then s_one else s_zero)
  | _ => None
  end.

(** The reading that the reduction is compared with: reduce each member
    on its own, then combine the per-member results by the same
    reduction. *)
Definition reduce_each_then_combine (name : string) (self : list (ndarray T))
  : res T (value T) :=
  match np_getattr name with
  | Some f =>
      rs ← each f self;
      match mapM scalar_of rs with
      | Some xs => f (mk_nd [length xs] xs)
      | None => Raise (ValueError "not a number")
      end
  | None => Raise (AttributeError "module 'numpy' has no attribute")
  end.

(** What the access and the call of a reduction name compute together:
    [self.name()]. *)
Definition reduce_jointly (name : string) (self : list (ndarray T))
  : res T (value T) :=
  r ← ArrayTuple_access self name;
  match r with
  | AtDynamic (Partial f bs) => partial_call f bs
  | _ => Raise (AttributeError "not a reduction")
  end.

Lemma reductions_cases (P : string -> Prop) (name : string) :
  name ∈ _REDUCTIONS ->
  P "sum" -> P "any" -> P "all" -> P "min" -> P "max" -> P "prod" -> P name.
Proof.
  unfold _REDUCTIONS. rewrite list_elem_of_In. cbn.
  intros [<-|[<-|[<-|[<-|[<-|[<-|[]]]]]]]; auto.
Qed.

Lemma reductions_not_on_class (name : string) :
  name ∈ _REDUCTIONS -> name ∉ ArrayTuple_class_attrs.
Proof.
  intros Hname. pattern name. apply (reductions_cases _ _ Hname);
    unfold ArrayTuple_class_attrs; rewrite list_elem_of_In; cbn;
    intuition discriminate.
Qed.

Lemma reductions_are_numpy_functions (name : string) :
  name ∈ _REDUCTIONS -> exists f, np_getattr name = Some f.
Proof.
  intros Hname. pattern name. apply (reductions_cases _ _ Hname);
    unfold np_getattr; repeat (case_decide; [by eexists|]); done.
Qed.

Lemma reductions_are_ndarray_methods (name : string) (a : ndarray T) :
  name ∈ _REDUCTIONS -> ndarray_getattr a name = Ok (AMethod name a).
Proof.
  intros Hname. unfold ndarray_getattr.
  rewrite (bool_decide_eq_true_2 (name ∈ ndarray_methods)) by done.
  pattern name. apply (reductions_cases _ _ Hname);
    repeat (case_decide; [discriminate|]); done.
Qed.

Lemma ArrayTuple_access_reduction (self : list (ndarray T)) (name : string) :
  name ∈ _REDUCTIONS ->
  ArrayTuple_access self name
  = bs ← ArrayTuple_broadcast self; Ok (AtDynamic (Partial name bs)).
Proof.
  intros Hname. unfold ArrayTuple_access, ArrayTuple_getattr, ArrayTuple_broadcast.
  rewrite bool_decide_eq_false_2 by by apply reductions_not_on_class.
  rewrite bool_decide_eq_true_2 by done.
  by destruct (broadcast_arrays self).
Qed.

End ReductionProperties.

(** C2. For a reduction name, the attribute of an [ArrayTuple] is the
    NumPy function of that name applied to the list of the broadcast
    members, so that a call reduces their stack: for members that are
    arrays, the one array of shape [(K, *sh)], [sh] being the common shape,
    whose element at [(i, *idx)] is the element of member [i] that
    broadcasting puts at [idx]. This is one result over the ensemble, and
    not the same function as reducing each member on its own and combining
    the results, for any of the six names: on two members of 2 and of 3
    elements, which cannot be broadcast to one shape, the reduction over the
    ensemble raises the shape mismatch for each of the six names, while the
    reduction member by member returns a value; and both return, with
    different values, for [sum] and for [prod] on two members of shapes
    [(3, 1)] and [(1, 2)], for [any] and for [all] on two members of shapes
    [(0, 1)] and [(1, 2)]. *)
Theorem reduction_over_the_ensemble :
  (forall (T : Type) (S : Scalar T) (self bs : list (ndarray T))
          (name : string),
     name ∈ _REDUCTIONS -> Forall nd_wf self ->
     ArrayTuple_broadcast self = Ok bs ->
     ArrayTuple_access self name = Ok (AtDynamic (Partial name bs))
     /\ (exists f,
           np_getattr name = Some f
           /\ partial_call name bs = f (np_stack bs))
     /\ (self <> [] ->
         exists sh,
           shape (np_stack bs) = length self :: sh
           /\ nd_wf (np_stack bs)
           /\ forall i a idx,
                self !! i = Some a -> in_range idx sh ->
                compatible (shape a) sh
                /\ nd_get (np_stack bs) (i :: idx)
                   = nd_get a (bcast_index (shape a) idx)))
  /\ Forall (fun name =>
               exists (self : list (ndarray Z)) (r1 r2 : value Z),
                 reduce_jointly name self = Ok r1
                 /\ reduce_each_then_combine name self = Ok r2
                 /\ r1 <> r2)
            ["sum"; "prod"; "any"; "all"]
  /\ Forall (fun '(name, r) =>
               reduce_jointly name [mk_nd [2] [1; 2]%Z; mk_nd [3] [1; 2; 3]%Z]
               = Raise shape_mismatch
               /\ reduce_each_then_combine name
                    [mk_nd [2] [1; 2]%Z; mk_nd [3] [1; 2; 3]%Z]
                  = Ok r)
            [("sum", VNum 9%Z); ("any", VBool true); ("all", VBool true);
             ("min", VNum 1%Z); ("max", VNum 3%Z); ("prod", VNum 12%Z)].
Proof.
  split; [|split].
  - intros T S self bs name Hname Hwf Hbs.
    split; [by rewrite ArrayTuple_access_reduction, Hbs|].
    split.
    { destruct (reductions_are_numpy_functions _ Hname) as [f Hf].
      exists f. split; [done|]. unfold partial_call. by rewrite Hf. }
    intros Hne.
    destruct (broadcast_arrays_members _ _ Hwf Hbs)
      as (sh & Hlen & Hall & Hmem).
    assert (bs <> []) as Hbne by (destruct bs, self; done).
    destruct (np_stack_members bs sh Hbne Hall) as (Hshape & Hswf & Hget).
    exists sh. rewrite Hshape, Hlen. split; [done|]. split; [done|].
    intros i a idx Ha Hidx.
    destruct (Hmem i a Ha) as (Hcomp & b & Hb & Hbget).
    split; [done|]. by rewrite (Hget i b idx Hb Hidx), Hbget.
  - repeat constructor.
    + exists [mk_nd [3; 1] [10; 20; 30]%Z; mk_nd [1; 2] [1; 2]%Z].
      exists (VNum 129%Z), (VNum 63%Z). by vm_compute.
    + exists [mk_nd [3; 1] [1; 2; 3]%Z; mk_nd [1; 2] [1; 2]%Z].
      exists (VNum 288%Z), (VNum 12%Z). by vm_compute.
    + exists [mk_nd [0; 1] []; mk_nd [1; 2] [1; 0]%Z].
      exists (VBool false), (VBool true). by vm_compute.
    + exists [mk_nd [0; 1] []; mk_nd [1; 2] [1; 0]%Z].
      exists (VBool true), (VBool false). by vm_compute.
  - repeat constructor.
Qed.

Section Shadowing.
Context {T : Type} `{Scalar T}.

(** C5. The members of an [ArrayTuple] do have an attribute for each
    reduction name (the method of [ndarray] of that name), so that
    forwarding would return the tuple of these methods; yet the attribute
    of the [ArrayTuple] for such a name is the reduction over the ensemble
    (or the error of broadcasting), and never the forwarded tuple, whereas a
    name such as [shape] is forwarded. *)
Theorem reduction_shadows_forwarding (self : list (ndarray T)) (name : string) :
  name ∈ _REDUCTIONS ->
  each (fun a => ndarray_getattr a name) self = Ok (AMethod name <$> self)
  /\ ArrayTuple_access self name
     = (bs ← ArrayTuple_broadcast self; Ok (AtDynamic (Partial name bs)))
  /\ (forall vs, ArrayTuple_access self name <> Ok (AtDynamic (Forwarded vs)))
  /\ (forall n, ArrayTuple_access self name <> Ok (AtClassAttr n))
  /\ ArrayTuple_access self "shape"
     = Ok (AtDynamic (Forwarded ((fun a => AShape (shape a)) <$> self))).
Proof.
  intros Hname. split; [|split; [|split; [|split]]].
  - apply each_Ok. apply Forall2_fmap_r, Forall_Forall2_diag, Forall_forall.
    intros a _. by apply reductions_are_ndarray_methods.
  - by apply ArrayTuple_access_reduction.
  - intros vs. rewrite ArrayTuple_access_reduction by done.
    by destruct (ArrayTuple_broadcast self).
  - intros n. rewrite ArrayTuple_access_reduction by done.
    by destruct (ArrayTuple_broadcast self).
  - unfold ArrayTuple_access, ArrayTuple_getattr.
    rewrite bool_decide_eq_false_2
      by (unfold ArrayTuple_class_attrs; rewrite list_elem_of_In; cbn;
          intuition discriminate).
    rewrite bool_decide_eq_false_2
      by (unfold _REDUCTIONS; rewrite list_elem_of_In; cbn;
          intuition discriminate).
    assert (each (fun a => ndarray_getattr a "shape") self
            = Ok ((fun a => AShape (shape a)) <$> self)) as ->; [|done].
    apply each_Ok. apply Forall2_fmap_r, Forall_Forall2_diag, Forall_forall.
    intros a _. unfold ndarray_getattr. by rewrite decide_True.
Qed.

(** C9, amended. On the [ArrayTuple] without members, [broadcast()]
    returns the [ArrayTuple] without members, and the attribute for each of
    the six reduction names is read without error: it is the NumPy function
    of that name applied to the empty list, a call of which is that function
    on the empty array. The call returns 0 for [sum], 1 for [prod], false
    for [any] and true for [all]; for [min] and for [max] it returns nothing
    and raises NumPy's own error on a zero-size array. *)
Theorem empty_ensemble :
  ArrayTuple_broadcast (T:=T) [] = Ok []
  /\ Forall (fun '(name, f, r) =>
               ArrayTuple_access (T:=T) [] name
               = Ok (AtDynamic (Partial name []))
               /\ np_getattr name = Some f
               /\ partial_call name [] = f (mk_nd [0] [])
               /\ partial_call name [] = r)
            [("sum", np_sum, Ok (VNum s_zero));
             ("prod", np_prod, Ok (VNum s_one));
             ("any", np_any, Ok (VBool false));
             ("all", np_all, Ok (VBool true));
             ("min", np_min,
              Raise (ValueError
                       "zero-size array to reduction operation minimum which has no identity"));
             ("max", np_max,
              Raise (ValueError
                       "zero-size array to reduction operation maximum which has no identity"))]
  /\ (forall r, partial_call (T:=T) "min" [] <> Ok r)
  /\ (forall r, partial_call (T:=T) "max" [] <> Ok r).
Proof.
  split; [done|]. split; [|by split].
  repeat constructor.
Qed.

End Shadowing.

(** * A concrete histogram: two regular axes *)

(** A regular axis of [n] bins of width [w] from 0, with one overflow bin
    and integer coordinates. *)
Definition regular (n : nat) (w : Z) : Axis Z := {|
  ax_size := Z.of_nat n;
  ax_extent := Z.of_nat n + 1;
  ax_centers := (fun k => Z.of_nat k * w + w / 2)%Z <$> seq 0 n;
  ax_edges := (fun k => Z.of_nat k * w)%Z <$> seq 0 (S n);
  ax_widths := replicate n w;
  ax_value := fun i =>
    match i with
    | VInt k => Ok (VNum (k * w)%Z)
    | _ => Raise (TypeError_got "an index is an integer, got " i)
    end;
  ax_bin := fun i =>
    match i with
    | VInt k =>
        if ((0 <=? k) && (k <? Z.of_nat n))%Z
        then Ok (VSeq [k * w; (k + 1) * w]%Z)
        else Raise (IndexError "bin index out of range")
    | _ => Raise (TypeError_got "an index is an integer, got " i)
    end;
  ax_index := fun x =>
    match x with
    | VNum c => Ok (VInt (c / w)%Z)
    | _ => Raise (TypeError_got "a coordinate is a number, got " x)
    end;
  ax_dict := ∅ |}.

Definition demo_heap : heap Z := <[1%positive := regular 3 2]> (<[2%positive := regular 2 10]> ∅).

Definition demo_axes : AxesTuple Z := mk_axes [VAxis 1; VAxis 2] ∅.

(** The same axis object twice. *)
Definition shared_axes : AxesTuple Z := mk_axes [VAxis 1; VAxis 1] ∅.

Lemma demo_in_store : in_store demo_heap (items demo_axes).
Proof.
  repeat constructor.
  - by exists 1%positive, (regular 3 2).
  - by exists 2%positive, (regular 2 10).
Defined.

Lemma demo_has_seqs (sel : Axis Z -> list Z) :
  has_seqs sel demo_heap (items demo_axes)
           [sel (regular 3 2); sel (regular 2 10)].
Proof.
  repeat constructor.
  - by exists 1%positive, (regular 3 2).
  - by exists 2%positive, (regular 2 10).
Defined.

Lemma not_a_class_attr_label : "label" ∉ AxesTuple_class_attrs.
Proof.
  unfold AxesTuple_class_attrs. rewrite list_elem_of_In. cbn.
  intuition discriminate.
Qed.

Lemma label_is_writable : "label" ∉ axis_capabilities.
Proof.
  unfold axis_capabilities. rewrite list_elem_of_In. cbn.
  intuition discriminate.
Qed.

(** C1: the grids of the two axes, of 3 and 2 bins. *)
Lemma grid_properties_witness :
  (exists arrs,
     AxesTuple_centers demo_heap demo_axes = Ok arrs
     /\ is_sparse_grid [[1; 3; 5]; [5; 15]]%Z arrs)
  /\ (exists arrs,
        AxesTuple_edges demo_heap demo_axes = Ok arrs
        /\ is_sparse_grid [[0; 2; 4; 6]; [0; 10; 20]]%Z arrs)
  /\ (exists arrs,
        AxesTuple_widths demo_heap demo_axes = Ok arrs
        /\ is_sparse_grid [[2; 2; 2]; [10; 10]]%Z arrs).
Proof.
  exact (grid_properties demo_heap demo_axes _ _ _
           (demo_has_seqs ax_centers) (demo_has_seqs ax_edges)
           (demo_has_seqs ax_widths)).
Defined.

(** C1 as stated fails: the axes have 3 and 2 bins, and the arrays of
    [edges] have 4 and 3 entries along their own dimension. *)
Lemma edges_grid_is_not_of_the_sizes :
  AxesTuple_size demo_heap demo_axes = Ok [3; 2]%Z
  /\ AxesTuple_edges demo_heap demo_axes
     = Ok [mk_nd [4; 1] [0; 2; 4; 6]%Z; mk_nd [1; 3] [0; 10; 20]%Z]
  /\ [4; 1] <> <[0 := 3]> (replicate 2 1)
  /\ [1; 3] <> <[1 := 2]> (replicate 2 1).
Proof. by vm_compute. Qed.

(** C2: the sum over two members of shapes [(3, 1)] and [(1, 2)]. *)
Lemma reduction_over_the_ensemble_witness :
  ArrayTuple_access [mk_nd [3; 1] [10; 20; 30]%Z; mk_nd [1; 2] [1; 2]%Z] "sum"
  = Ok (AtDynamic
          (Partial "sum" [mk_nd [3; 2] [10; 10; 20; 20; 30; 30]%Z;
                          mk_nd [3; 2] [1; 2; 1; 2; 1; 2]%Z])).
Proof.
  apply (proj1 reduction_over_the_ensemble Z _
           [mk_nd [3; 1] [10; 20; 30]%Z; mk_nd [1; 2] [1; 2]%Z]).
  - by left.
  - by repeat constructor.
  - reflexivity.
Defined.

(** C3: one coordinate per axis, and one coordinate too few. *)
Lemma per_axis_queries_witness :
  AxesTuple_value demo_heap demo_axes [VInt 1; VInt 0]
  = each (call_on ax_value demo_heap)
         (zip (items demo_axes) [VInt 1; VInt 0])
  /\ AxesTuple_value demo_heap demo_axes [VInt 1]
     = Raise (IndexError arity_message).
Proof.
  split.
  - exact (proj1 (proj1 (proj2 (proj2 (per_axis_queries demo_heap demo_axes
                                         [VInt 1; VInt 0])) eq_refl))).
  - refine (proj1 (proj1 (per_axis_queries demo_heap demo_axes [VInt 1]) _)).
    discriminate.
Defined.

(** C3 as stated fails: a container of two axes and a container of one
    axis, called with one argument too few, raise the index error with the
    same message, which has no numeral in it and so states neither of the
    two required counts. *)
Lemma arity_message_states_no_count :
  length (items demo_axes) = 2
  /\ length (items (mk_axes (T:=Z) [VAxis 1] ∅)) = 1
  /\ AxesTuple_value demo_heap demo_axes [VInt 1]
     = Raise (IndexError
                "Must have the same number of arguments as the number of axes")
  /\ AxesTuple_value demo_heap (mk_axes [VAxis 1] ∅) []
     = Raise (IndexError
                "Must have the same number of arguments as the number of axes")
  /\ digits "Must have the same number of arguments as the number of axes"
     = []
  /\ digits "Must have 2 arguments" = ["2"%char].
Proof. by vm_compute. Qed.

(** C4: two axes, and a string among the candidates. *)
Lemma AxesTuple_new_validates_witness :
  AxesTuple_new (T:=Z) [VAxis 1; VAxis 2] = Ok demo_axes
  /\ forall t, AxesTuple_new (T:=Z) [VAxis 1; VStr "x"; VAxis 2] <> Ok t.
Proof.
  split.
  - apply (proj1 (AxesTuple_new_validates [VAxis 1; VAxis 2])).
    by repeat constructor.
  - apply (proj1 (proj2 (AxesTuple_new_validates
                           [VAxis 1; VStr "x"; VAxis 2]))).
    right. by left.
Defined.

(** C9 as stated fails: on the [ArrayTuple] of integers without members the
    attributes [min] and [max] are read without error, and calling them
    produces no result: the call raises the [ValueError] of a reduction
    without identity on a zero-size array. *)
Lemma empty_min_and_max_raise :
  ArrayTuple_access (T:=Z) [] "min" = Ok (AtDynamic (Partial "min" []))
  /\ ArrayTuple_access (T:=Z) [] "max" = Ok (AtDynamic (Partial "max" []))
  /\ reduce_jointly (T:=Z) "min" []
     = Raise (ValueError
                "zero-size array to reduction operation minimum which has no identity")
  /\ reduce_jointly (T:=Z) "max" []
     = Raise (ValueError
                "zero-size array to reduction operation maximum which has no identity").
Proof. by vm_compute. Qed.

(** C5: [sum] on two members that have a method [sum]. *)
Lemma reduction_shadows_forwarding_witness :
  each (fun a => ndarray_getattr a "sum")
       [mk_nd [3; 1] [10; 20; 30]%Z; mk_nd [1; 2] [1; 2]%Z]
  = Ok [AMethod "sum" (mk_nd [3; 1] [10; 20; 30]%Z);
        AMethod "sum" (mk_nd [1; 2] [1; 2]%Z)]
  /\ ArrayTuple_access
       [mk_nd [3; 1] [10; 20; 30]%Z; mk_nd [1; 2] [1; 2]%Z] "sum"
     = Ok (AtDynamic
             (Partial "sum" [mk_nd [3; 2] [10; 10; 20; 20; 30; 30]%Z;
                             mk_nd [3; 2] [1; 2; 1; 2; 1; 2]%Z])).
Proof.
  pose proof (reduction_shadows_forwarding
                [mk_nd [3; 1] [10; 20; 30]%Z; mk_nd [1; 2] [1; 2]%Z] "sum"
                ltac:(by left)) as (Hmembers & Haccess & _).
  split; [exact Hmembers | exact Haccess].
Defined.

(** C6: broadcasting the dense grid of the two axes again. *)
Lemma broadcast_idempotent_witness :
  ArrayTuple_broadcast [mk_nd [3; 2] [1; 1; 3; 3; 5; 5]%Z;
                        mk_nd [3; 2] [5; 15; 5; 15; 5; 15]%Z]
  = Ok [mk_nd [3; 2] [1; 1; 3; 3; 5; 5]%Z;
        mk_nd [3; 2] [5; 15; 5; 15; 5; 15]%Z].
Proof.
  apply (proj1 (broadcast_idempotent
                  [mk_nd [3; 1] [1; 3; 5]%Z; mk_nd [1; 2] [5; 15]%Z])).
  reflexivity.
Defined.

(** C7: a label for each of the two axes, read back. *)
Lemma setattr_then_getattr_witness :
  exists h',
    AxesTuple_setattr demo_heap demo_axes "label" [VStr "x"; VStr "y"]
    = (h', demo_axes, Ok ())
    /\ AxesTuple_access h' demo_axes "label"
       = Ok (Forward [VStr "x"; VStr "y"]).
Proof.
  apply (proj1 (setattr_then_getattr [VAxis 1; VAxis 2] demo_heap demo_axes
                  "label" [VStr "x"; VStr "y"] eq_refl demo_in_store
                  ltac:(by repeat constructor; rewrite list_elem_of_In; cbn;
                          intuition discriminate)
                  not_a_class_attr_label)).
  reflexivity.
Defined.

(** C7 as stated fails: when the two members are one axis object, the
    second write replaces the first, and reading back gives the last value
    twice. *)
Lemma shared_axis_reads_back_the_last_value :
  AxesTuple_new (T:=Z) [VAxis 1; VAxis 1] = Ok shared_axes
  /\ ("label" ∉ AxesTuple_class_attrs)
  /\ exists h',
       AxesTuple_setattr demo_heap shared_axes "label" [VStr "x"; VStr "y"]
       = (h', shared_axes, Ok ())
       /\ AxesTuple_access h' shared_axes "label"
          = Ok (Forward [VStr "y"; VStr "y"])
       /\ Forward [VStr "y"; VStr "y"]
          <> Forward (T:=Z) [VStr "x"; VStr "y"].
Proof.
  split; [done|]. split; [apply not_a_class_attr_label|].
  eexists. split; [by vm_compute|]. split; [by vm_compute | done].
Qed.



(** C8: the second axis, and the slice of the first axis alone. *)
Lemma AxesTuple_getitem_spec_witness :
  AxesTuple_getitem demo_axes (KInt 1) = Ok (Bare (VAxis 2))
  /\ AxesTuple_getitem demo_axes (KSlice (Some 0%Z) (Some 1%Z) None)
     = Ok (Wrapped (mk_axes [VAxis 1] ∅)).
Proof.
  pose proof (AxesTuple_getitem_spec [VAxis 1; VAxis 2] demo_axes eq_refl)
    as (Hint & _ & _ & Hslice).
  split.
  - exact (proj1 (Hint 1 (VAxis 2) eq_refl)).
  - exact (proj1 (Hslice 0 1)).
Defined.

(** * Further properties *)

(** ** Slices with a step, and integer indices *)

Section Slices.
Context {T : Type}.

Lemma slice_index_in_range (len st : Z) (a b : option Z) (k : Z) :
  (0 <= len)%Z -> st <> 0%Z ->
  (0 <= k < slice_length (slice_start len st a) (slice_stop len st b) st)%Z ->
  (0 <= slice_start len st a + k * st < len)%Z.
Proof.
  intros Hlen Hst. unfold slice_length, slice_start, slice_stop, slice_bound.
  destruct (Z.ltb_spec 0 st) as [Hpos|Hneg].
  - set (start := match a with
                  | Some i => if (i <? 0)%Z then Z.max (i + len) 0 else Z.min i len
                  | None => 0%Z
                  end).
    set (stop := match b with
                 | Some i => if (i <? 0)%Z then Z.max (i + len) 0 else Z.min i len
                 | None => len
                 end).
    assert (0 <= start <= len)%Z as Hstart
      by (unfold start; destruct a as [i|]; [destruct (Z.ltb_spec i 0)|]; lia).
    assert (0 <= stop <= len)%Z as Hstop
      by (unfold stop; destruct b as [i|]; [destruct (Z.ltb_spec i 0)|]; lia).
    destruct (Z.ltb_spec start stop) as [Hlt|Hge]; [|lia].
    intros Hk.
    pose proof (Z.mul_div_le (stop - start - 1) st Hpos) as Hq.
    nia.
  - assert (st < 0)%Z as Hst' by lia.
    set (start := match a with
                  | Some i =>
                      if (i <? 0)%Z then Z.max (i + len) (-1)
                      else Z.min i (len - 1)
                  | None => (len - 1)%Z
                  end).
    set (stop := match b with
                 | Some i =>
                     if (i <? 0)%Z then Z.max (i + len) (-1)
                     else Z.min i (len - 1)
                 | None => (-1)%Z
                 end).
    assert (-1 <= start <= len - 1)%Z as Hstart
      by (unfold start; destruct a as [i|]; [destruct (Z.ltb_spec i 0)|]; lia).
    assert (-1 <= stop <= len - 1)%Z as Hstop
      by (unfold stop; destruct b as [i|]; [destruct (Z.ltb_spec i 0)|]; lia).
    destruct (Z.ltb_spec stop start) as [Hlt|Hge]; [|lia].
    intros Hk.
    assert (0 < - st)%Z as Hpos by lia.
    pose proof (Z.mul_div_le (start - stop - 1) (- st) Hpos) as Hq.
    nia.
Qed.

(** What a slice with a step other than 0 returns: as many elements as the
    length of the slice, the element at position [k] being the one of the
    tuple at position [start + k * step]; no position falls outside of the
    tuple. *)
Lemma tuple_slice_elements {A} (t : list A) (a b c : option Z) :
  default 1%Z c <> 0%Z ->
  exists sub,
    tuple_slice (T:=T) t a b c = Ok sub
    /\ length sub
       = Z.to_nat (slice_length
                     (slice_start (Z.of_nat (length t)) (default 1%Z c) a)
                     (slice_stop (Z.of_nat (length t)) (default 1%Z c) b)
                     (default 1%Z c))
    /\ forall k,
         k < length sub ->
         is_Some (sub !! k)
         /\ sub !! k
            = t !! Z.to_nat
                     (slice_start (Z.of_nat (length t)) (default 1%Z c) a
                      + Z.of_nat k * default 1%Z c).
Proof.
  intros Hst. unfold tuple_slice.
  destruct (Z.eqb_spec (default 1%Z c) 0) as [?|_]; [done|].
  set (st := default 1%Z c) in *. set (len := Z.of_nat (length t)).
  set (start := slice_start len st a). set (stop := slice_stop len st b).
  set (n := Z.to_nat (slice_length start stop st)).
  assert (forall k, k ∈ seq 0 n ->
            is_Some (t !! Z.to_nat (start + Z.of_nat k * st))) as Hin.
  { intros k Hk%elem_of_seq. apply lookup_lt_is_Some.
    pose proof (slice_index_in_range len st a b (Z.of_nat k)) as Hr.
    fold start stop in Hr. unfold n, len in *. lia. }
  eexists. split; [done|].
  rewrite omap_total_length, length_seq by done. split; [done|].
  intros k Hk.
  rewrite (omap_total_lookup _ _ k k) by (done || by apply lookup_seq_lt).
  split; [|done]. apply Hin, elem_of_seq. lia.
Qed.

Lemma tuple_slice_sub {A} (t sub : list A) (a b c : option Z) :
  tuple_slice (T:=T) t a b c = Ok sub -> sub ⊆ t.
Proof.
  unfold tuple_slice. destruct (_ =? _)%Z; [done|]. intros [= <-].
  intros x (k & _ & Hx)%list_elem_of_omap.
  by eapply list_elem_of_lookup_2.
Qed.

Lemma tuple_slice_whole {A} (t : list A) :
  tuple_slice (T:=T) t None None None = Ok t.
Proof.
  unfold tuple_slice, slice_start, slice_stop, slice_bound, slice_length.
  cbn [default]. change (1 =? 0)%Z with false. change (0 <? 1)%Z with true.
  cbn match. f_equal.
  rewrite (omap_pointwise _ (fun k => t !! (0 + k)))
    by (intros k; f_equal; lia).
  rewrite omap_lookup_seq, drop_0.
  apply take_ge. destruct (Z.ltb_spec 0 (Z.of_nat (length t))) as [?|?].
  - rewrite Z.div_1_r. lia.
  - cbn. lia.
Qed.

Lemma tuple_slice_reversed {A} (t : list A) :
  tuple_slice (T:=T) t None None (Some (-1)%Z) = Ok (reverse t).
Proof.
  pose proof (tuple_slice_elements t None None (Some (-1)%Z)) as Hs.
  destruct Hs as (sub & -> & Hlen & Hsub); [done|]. f_equal.
  change (default 1%Z (Some (-1)%Z)) with (-1)%Z in *.
  unfold slice_start, slice_stop, slice_bound, slice_length in *.
  change (0 <? -1)%Z with false in *. cbn match in *.
  assert (length sub = length t) as Hlen'.
  { rewrite Hlen.
    destruct (Z.ltb_spec (-1) (Z.of_nat (length t) - 1)) as [?|?]; [|lia].
    change (- -1)%Z with 1%Z. rewrite Z.div_1_r. lia. }
  apply list_eq. intros k. destruct (decide (k < length t)) as [Hk|Hk].
  - rewrite (proj2 (Hsub k ltac:(lia))), reverse_lookup by done.
    f_equal. lia.
  - rewrite !lookup_ge_None_2; [done | rewrite length_reverse; lia | lia].
Qed.

(** X1. On a container built by the constructor, a slice whose step is 0
    raises the value error; any other slice returns a new container, checked
    by the constructor, with as many members as the length of the slice,
    member [k] being the member of the container at position
    [start + k * step], a position that is never outside of the
    container. *)
Theorem AxesTuple_getitem_slice (vs : list (value T)) (self : AxesTuple T)
    (a b c : option Z) :
  AxesTuple_new vs = Ok self ->
  (default 1%Z c = 0%Z ->
   AxesTuple_getitem self (KSlice a b c)
   = Raise (ValueError "slice step cannot be zero"))
  /\ (default 1%Z c <> 0%Z ->
      exists sub,
        AxesTuple_getitem self (KSlice a b c) = Ok (Wrapped (mk_axes sub ∅))
        /\ AxesTuple_new sub = Ok (mk_axes sub ∅)
        /\ length sub
           = Z.to_nat
               (slice_length
                  (slice_start (Z.of_nat (length vs)) (default 1%Z c) a)
                  (slice_stop (Z.of_nat (length vs)) (default 1%Z c) b)
                  (default 1%Z c))
        /\ forall k,
             k < length sub ->
             is_Some (sub !! k)
             /\ sub !! k
                = vs !! Z.to_nat
                          (slice_start (Z.of_nat (length vs)) (default 1%Z c) a
                           + Z.of_nat k * default 1%Z c)).
Proof.
  intros Hnew. apply AxesTuple_new_Ok in Hnew as [-> Hvs]. split.
  - intros Hst. unfold AxesTuple_getitem, tuple_getitem, tuple_slice.
    cbn [items]. by rewrite Hst.
  - intros Hst.
    destruct (tuple_slice_elements vs a b c Hst)
      as (sub & Hsub & Hlen & Helems).
    assert (AxesTuple_new sub = Ok (mk_axes sub ∅)) as Hnew.
    { apply AxesTuple_new_all_axes, Forall_forall. intros x Hx.
      apply (proj1 (Forall_forall _ _) Hvs).
      by apply (tuple_slice_sub _ _ _ _ _ Hsub). }
    exists sub. split; [|done].
    unfold AxesTuple_getitem, tuple_getitem. cbn [items].
    rewrite Hsub. cbn [mbind res_mbind res_bind]. by rewrite Hnew.
Qed.

(** X2. On a container built by the constructor, the slice [[:]] returns a
    container equal to it, the slice [[::-1]] the container of its members
    in reverse order, and reversing twice gives the container back. *)
Theorem AxesTuple_getitem_whole_and_reversed (vs : list (value T))
    (self : AxesTuple T) :
  AxesTuple_new vs = Ok self ->
  AxesTuple_getitem self (KSlice None None None) = Ok (Wrapped self)
  /\ AxesTuple_getitem self (KSlice None None (Some (-1)%Z))
     = Ok (Wrapped (mk_axes (reverse (items self)) ∅))
  /\ AxesTuple_getitem (mk_axes (reverse (items self)) ∅)
       (KSlice None None (Some (-1)%Z))
     = Ok (Wrapped self).
Proof.
  intros Hnew. apply AxesTuple_new_Ok in Hnew as [-> Hvs]. cbn [items].
  assert (forall ws : list (value T), all_axes ws ->
            AxesTuple_getitem (mk_axes ws ∅) (KSlice None None (Some (-1)%Z))
            = Ok (Wrapped (mk_axes (reverse ws) ∅))) as Hrev.
  { intros ws Hws. unfold AxesTuple_getitem, tuple_getitem. cbn [items].
    rewrite tuple_slice_reversed. cbn [mbind res_mbind res_bind].
    rewrite AxesTuple_new_all_axes; [done|]. by apply Forall_reverse. }
  split; [|split].
  - unfold AxesTuple_getitem, tuple_getitem. cbn [items].
    rewrite tuple_slice_whole. cbn [mbind res_mbind res_bind].
    by rewrite AxesTuple_new_all_axes.
  - by apply Hrev.
  - rewrite Hrev by by apply Forall_reverse. by rewrite reverse_involutive.
Qed.

(** X3. An integer index [i] on a container of [K] members returns a member
    of the container, never a container, exactly when [-K <= i < K]: the
    member at position [i], or at position [K + i] when [i] is negative.
    Any other integer raises the index error. *)
Theorem AxesTuple_getitem_integer (self : AxesTuple T) (i : Z) :
  ((- Z.of_nat (length (items self)) <= i < Z.of_nat (length (items self)))%Z ->
   exists s,
     items self !! Z.to_nat (i `mod` Z.of_nat (length (items self))) = Some s
     /\ AxesTuple_getitem self (KInt i) = Ok (Bare s))
  /\ (~ (- Z.of_nat (length (items self)) <= i
         < Z.of_nat (length (items self)))%Z ->
      AxesTuple_getitem self (KInt i) = Raise out_of_range)
  /\ (forall t, AxesTuple_getitem self (KInt i) <> Ok (Wrapped t)).
Proof.
  set (n := Z.of_nat (length (items self))).
  unfold AxesTuple_getitem, tuple_getitem, tuple_item. fold n.
  split; [|split].
  - intros Hi.
    set (j := if (i <? 0)%Z then (i + n)%Z else i).
    assert (0 <= j < n)%Z as Hj
      by (unfold j; destruct (Z.ltb_spec i 0); lia).
    assert ((i `mod` n)%Z = j) as ->.
    { unfold j. destruct (Z.ltb_spec i 0).
      - symmetry. apply (Z.mod_unique_pos _ _ (-1)); lia.
      - apply Z.mod_small. lia. }
    destruct (lookup_lt_is_Some_2 (items self) (Z.to_nat j)) as [s Hs];
      [unfold n in Hj; lia|].
    exists s. split; [done|].
    destruct (Z.ltb_spec j 0) as [?|_]; [lia|].
    destruct (Z.leb_spec n j) as [?|_]; [lia|].
    cbn. by rewrite Hs.
  - intros Hi.
    set (j := if (i <? 0)%Z then (i + n)%Z else i).
    assert (j < 0 \/ n <= j)%Z as Hj
      by (unfold j; destruct (Z.ltb_spec i 0); lia).
    destruct (Z.ltb_spec j 0) as [?|?]; [done|].
    destruct (Z.leb_spec n j) as [?|?]; [done | lia].
  - intros t.
    destruct (_ || _)%bool; [done|].
    by destruct (items self !! _).
Qed.

End Slices.

(** ** What an attribute write leaves alone *)

Section WriteFrame.
Context {T : Type}.

Lemma deref_touched attr vs (h h' : heap T) (s : value T) :
  touched_only attr vs h h' ->
  match deref h s, deref h' s with
  | Ok (l, a), Ok (l', a') => l' = l /\ same_but attr a a'
  | Raise e, Raise e' => e' = e
  | _, _ => False
  end.
Proof.
  intros Ht. unfold deref. destruct s; try done.
  destruct (Ht l) as [_ Hrel]. by destruct Hrel.
Qed.

(** Reading through a member gives the same thing in the two stores when it
    gives the same thing on two states of an axis that differ in [attr]
    only. *)
Lemma through_deref_touched {B} attr vs (h h' : heap T)
    (F : loc -> Axis T -> res T B) (s : value T) :
  touched_only attr vs h h' ->
  (forall l a a', same_but attr a a' -> F l a' = F l a) ->
  ('(l, a) ← deref h' s; F l a) = ('(l, a) ← deref h s; F l a).
Proof.
  intros Ht HF. pose proof (deref_touched attr vs h h' s Ht) as Hd.
  destruct (deref h s) as [[l a]|e], (deref h' s) as [[l' a']|e'];
    try done; cbn.
  - destruct Hd as [-> Hsame]. by apply HF.
  - by subst.
Qed.

Lemma axis_getattr_same_but attr attr' (l : loc) (a a' : Axis T) :
  attr' <> attr -> same_but attr a a' ->
  axis_getattr l a' attr' = axis_getattr l a attr'.
Proof.
  intros Hne (Hsize & Hext & Hc & He & Hw & _ & _ & _ & Hdict).
  unfold axis_getattr. by rewrite Hsize, Hext, Hc, He, Hw, Hdict.
Qed.

Lemma per_axis_touched attr vs (h h' : heap T)
    (m : Axis T -> value T -> res T (value T)) other args :
  touched_only attr vs h h' ->
  (forall a a', same_but attr a a' -> m a' = m a) ->
  per_axis m h' other args = per_axis m h other args.
Proof.
  intros Ht Hm. unfold per_axis. case_bool_decide; [done|].
  apply each_ext. intros i _.
  destruct (AxesTuple_getitem other (KInt (Z.of_nat i))) as [[v|t]|e];
    try done. cbn [mbind res_mbind res_bind].
  apply (through_deref_touched attr vs h h'
           (fun _ a => x ← tuple_item args (Z.of_nat i); m a x)); [done|].
  intros _ a a' Hsame. by rewrite (Hm a a' Hsame).
Qed.

(** X4. After [self.attr = values], whether it returns or raises, every
    container over the same store, [self] included, has the size, the
    extent, the grids of centers, edges and widths and the results of
    [value], [bin] and [index] that it had before, and every attribute of
    another name reads as before. *)
Theorem setattr_changes_that_attribute_only (h h' : heap T)
    (self self' other : AxesTuple T) (attr : string)
    (values : list (value T)) (r : res T unit) :
  AxesTuple_setattr h self attr values = (h', self', r) ->
  AxesTuple_size h' other = AxesTuple_size h other
  /\ AxesTuple_extent h' other = AxesTuple_extent h other
  /\ AxesTuple_centers h' other = AxesTuple_centers h other
  /\ AxesTuple_edges h' other = AxesTuple_edges h other
  /\ AxesTuple_widths h' other = AxesTuple_widths h other
  /\ (forall args,
        AxesTuple_value h' other args = AxesTuple_value h other args
        /\ AxesTuple_bin h' other args = AxesTuple_bin h other args
        /\ AxesTuple_index h' other args = AxesTuple_index h other args)
  /\ (forall attr',
        attr' <> attr ->
        AxesTuple_getattr h' other attr' = AxesTuple_getattr h other attr'
        /\ AxesTuple_access h' other attr' = AxesTuple_access h other attr').
Proof.
  intros Hset. apply AxesTuple_setattr_touched in Hset as [_ Ht].
  assert (forall (B : Type) (sel : Axis T -> B),
            (forall a a', same_but attr a a' -> sel a' = sel a) ->
            each (fun s => '(_, a) ← deref h' s; Ok (sel a)) (items other)
            = each (fun s => '(_, a) ← deref h s; Ok (sel a)) (items other))
    as Hsel.
  { intros B sel Hs. apply each_ext. intros s _.
    apply (through_deref_touched attr (items self) h h'
             (fun _ a => Ok (sel a))); [done|].
    intros _ a a' Hsame. by rewrite (Hs a a' Hsame). }
  split; [|split; [|split; [|split; [|split; [|split]]]]].
  - apply Hsel. by intros a a' (? & _).
  - apply Hsel. by intros a a' (_ & ? & _).
  - unfold AxesTuple_centers. rewrite Hsel; [done|].
    by intros a a' (_ & _ & ? & _).
  - unfold AxesTuple_edges. rewrite Hsel; [done|].
    by intros a a' (_ & _ & _ & ? & _).
  - unfold AxesTuple_widths. rewrite Hsel; [done|].
    by intros a a' (_ & _ & _ & _ & ? & _).
  - intros args. split; [|split];
      apply (per_axis_touched attr (items self)); try done.
    + by intros a a' (_ & _ & _ & _ & _ & ? & _).
    + by intros a a' (_ & _ & _ & _ & _ & _ & ? & _).
    + by intros a a' (_ & _ & _ & _ & _ & _ & _ & ? & _).
  - intros attr' Hne.
    assert (AxesTuple_getattr h' other attr' = AxesTuple_getattr h other attr')
      as Hget.
    { unfold AxesTuple_getattr, py_getattr. apply each_ext. intros s _.
      apply (through_deref_touched attr (items self) h h'
               (fun l a => axis_getattr l a attr')); [done|].
      intros l a a' Hsame. by apply (axis_getattr_same_but attr). }
    split; [done|]. unfold AxesTuple_access. by rewrite Hget.
Qed.

(** X5. A write of as many values as there are members, on members of the
    store that may be one object several times, for a name other than
    [__class__] that an axis lets be written: the write returns, and
    reading the name back gives, at every position, the value written at
    the last position that holds the same object. *)
Theorem setattr_last_write_wins (h : heap T) (self : AxesTuple T)
    (ls : list loc) (attr : string) (values : list (value T)) :
  items self = VAxis <$> ls ->
  in_store h (items self) ->
  attr ∉ axis_capabilities ->
  attr <> "__class__" ->
  length values = length ls ->
  exists h' rs,
    AxesTuple_setattr h self attr values = (h', self, Ok ())
    /\ AxesTuple_getattr h' self attr = Ok rs
    /\ length rs = length ls
    /\ forall i l,
         ls !! i = Some l ->
         exists j v,
           ls !! j = Some l
           /\ (forall j', j < j' -> ls !! j' <> Some l)
           /\ values !! j = Some v
           /\ rs !! i = Some v.
Proof.
  intros Hitems Hstore Hattr Hclass Hlen. rewrite Hitems in Hstore.
  destruct (forward_writes_last_write h ls values attr Hstore Hattr Hlen)
    as (h' & rs & Hfw & Hread & Hlast).
  exists h', rs. split; [|split; [|split]].
  - rewrite AxesTuple_setattr_forwards, Hitems, Hfw by done.
    by rewrite decide_True by by rewrite length_fmap.
  - unfold AxesTuple_getattr. by rewrite Hitems.
  - apply each_length in Hread. by rewrite Hread, length_fmap.
  - exact Hlast.
Qed.

(** X6. A write of a sequence whose length is not the number of members, on
    pairwise distinct members of the store, for a name other than
    [__class__] that an axis lets be written: the call raises the arity
    mismatch, yet the members that have a value at their position are
    written, and the members beyond the end of the sequence are as
    before. *)
Theorem setattr_arity_mismatch_writes_a_prefix (h : heap T)
    (self : AxesTuple T) (attr : string) (values : list (value T)) :
  in_store h (items self) ->
  NoDup (items self) ->
  attr ∉ axis_capabilities ->
  attr <> "__class__" ->
  length values <> length (items self) ->
  exists h',
    AxesTuple_setattr h self attr values = (h', self, Raise ArityMismatch)
    /\ forall i l,
         items self !! i = Some (VAxis l) ->
         (forall v,
            values !! i = Some v -> py_getattr h' (VAxis l) attr = Ok v)
         /\ (length values <= i -> h' !! l = h !! l).
Proof.
  intros Hstore Hdup Hattr Hclass Hlen.
  set (n := length (items self) `min` length values).
  destruct (forward_writes_read_back h (take n (items self)) (take n values)
              attr) as (h' & Hfw & Hread).
  { by apply Forall_take. }
  { eapply sublist_NoDup; [exact Hdup | apply sublist_take]. }
  { done. }
  { rewrite !length_take. lia. }
  pose proof (forward_writes_touched _ _ _ _ _ Hfw) as Hframe.
  rewrite zip_with_take_both' in Hfw by lia.
  exists h'. split.
  { rewrite AxesTuple_setattr_forwards, Hfw by done.
    by rewrite decide_False. }
  intros i l Hi. split.
  - intros v Hv.
    pose proof (lookup_lt_Some _ _ _ Hi). pose proof (lookup_lt_Some _ _ _ Hv).
    apply each_Ok in Hread.
    eapply (Forall2_lookup_lr _ _ _ i) in Hread; [exact Hread | |].
    + rewrite lookup_take_lt by lia. done.
    + rewrite lookup_take_lt by lia. done.
  - intros Hge. destruct (Hframe l) as [Hsame _]. apply Hsame.
    intros Hin. apply list_elem_of_fmap in Hin as ([s w] & Hs & Hin).
    apply elem_of_zip_l in Hin. cbn in Hs. subst s.
    apply elem_of_take in Hin as (j & Hj & Hjn).
    pose proof (NoDup_lookup _ _ _ _ Hdup Hi Hj). lia.
Qed.

End WriteFrame.

(** ** Construction, and the container without members *)

Section Small.
Context {T : Type}.

Lemma AxesTuple_init_app (xs ys : list (value T)) :
  AxesTuple_init (xs ++ ys) = (_ ← AxesTuple_init xs; AxesTuple_init ys).
Proof.
  induction xs as [|x xs IH]; [done|]. cbn [app AxesTuple_init].
  by destruct (isinstance_Axis x).
Qed.

(** X7. The constructor on the members of two sequences one after the
    other: what the first sequence makes it raise is raised whatever the
    second is; when the first is accepted, what the second makes it raise
    is raised; and the container is returned exactly when both sequences
    are accepted. *)
Theorem AxesTuple_new_app (xs ys : list (value T)) :
  (forall e, AxesTuple_new xs = Raise e -> AxesTuple_new (xs ++ ys) = Raise e)
  /\ (forall t e,
        AxesTuple_new xs = Ok t -> AxesTuple_new ys = Raise e ->
        AxesTuple_new (xs ++ ys) = Raise e)
  /\ (forall t,
        AxesTuple_new (xs ++ ys) = Ok t <->
        t = mk_axes (xs ++ ys) ∅
        /\ AxesTuple_new xs = Ok (mk_axes xs ∅)
        /\ AxesTuple_new ys = Ok (mk_axes ys ∅)).
Proof.
  unfold AxesTuple_new. rewrite AxesTuple_init_app.
  destruct (AxesTuple_init xs) as [[]|ex]; cbn.
  - destruct (AxesTuple_init ys) as [[]|ey]; cbn.
    + split; [done|]. split; [done|]. intros t.
      split; [by intros [= <-] | by intros (-> & _)].
    + split; [done|]. split; [by intros t e _ [= <-]|]. intros t.
      split; [done | by intros (_ & _ & ?)].
  - split; [by intros e [= <-]|]. split; [done|]. intros t.
    split; [done | by intros (_ & ? & _)].
Qed.

(** X8. The container without members: its size, its extent and its grids
    are empty; a per-axis query without argument returns the empty tuple,
    and with an argument raises the index error; reading any name that the
    class does not define returns the empty tuple and raises no attribute
    error; writing the empty sequence to any name other than [__class__]
    returns and changes nothing, and writing any other sequence to such a
    name raises the arity mismatch and changes nothing; writing any
    sequence to [__class__] raises the type error and changes nothing. *)
Theorem AxesTuple_without_members (h : heap T) (attr : string) :
  AxesTuple_new (T:=T) [] = Ok (mk_axes [] ∅)
  /\ AxesTuple_size h (mk_axes [] ∅) = Ok []
  /\ AxesTuple_extent h (mk_axes [] ∅) = Ok []
  /\ AxesTuple_centers h (mk_axes [] ∅) = Ok []
  /\ AxesTuple_edges h (mk_axes [] ∅) = Ok []
  /\ AxesTuple_widths h (mk_axes [] ∅) = Ok []
  /\ AxesTuple_value h (mk_axes [] ∅) [] = Ok []
  /\ (forall x xs,
        AxesTuple_value h (mk_axes [] ∅) (x :: xs)
        = Raise (IndexError arity_message))
  /\ (attr ∉ AxesTuple_class_attrs ->
      AxesTuple_access h (mk_axes [] ∅) attr = Ok (Forward []))
  /\ (attr <> "__class__" ->
      AxesTuple_setattr h (mk_axes [] ∅) attr [] = (h, mk_axes [] ∅, Ok ()))
  /\ (attr <> "__class__" ->
      forall v vs,
        AxesTuple_setattr h (mk_axes [] ∅) attr (v :: vs)
        = (h, mk_axes [] ∅, Raise ArityMismatch))
  /\ (forall values,
        AxesTuple_setattr h (mk_axes [] ∅) "__class__" values
        = (h, mk_axes [] ∅, Raise (TypeError class_message))).
Proof.
  repeat split; try done.
  - intros Hattr. unfold AxesTuple_access. cbn [own items].
    by rewrite lookup_empty, bool_decide_eq_false_2.
  - intros Hattr. by rewrite AxesTuple_setattr_forwards.
  - intros Hattr v vs. by rewrite AxesTuple_setattr_forwards.
Qed.

End Small.

(** ** More on broadcasting and on the reductions *)

Section MoreBroadcast.
Context {T : Type} `{Scalar T}.

(** X9. [broadcast()] on well-formed members, when it returns: it returns
    as many members, all of one shape, each holding as many elements as the
    product of that shape, and the element of member [i] at an index, which
    exists for every index within the shape, is the element of the original
    member [i] at that index with the coordinates of the broadcast
    dimensions put back to 0. *)
Theorem broadcast_members (self bs : list (ndarray T)) :
  Forall nd_wf self ->
  ArrayTuple_broadcast self = Ok bs ->
  exists sh,
    length bs = length self
    /\ Forall (fun b => shape b = sh /\ length (data b) = prod_shape sh) bs
    /\ forall i a,
         self !! i = Some a ->
         compatible (shape a) sh
         /\ exists b,
              bs !! i = Some b
              /\ forall idx,
                   in_range idx sh ->
                   is_Some (nd_get b idx)
                   /\ nd_get b idx = nd_get a (bcast_index (shape a) idx).
Proof.
  intros Hwf Hbs.
  destruct (broadcast_arrays_members _ _ Hwf Hbs) as (sh & Hlen & Hall & Hmem).
  exists sh. split; [done|]. split.
  - eapply Forall_impl; [exact Hall|]. intros b [Hs Hw].
    split; [done|]. unfold nd_wf in Hw. by rewrite <- Hs.
  - intros i a Ha. destruct (Hmem i a Ha) as (Hcomp & b & Hb & Hget).
    split; [done|]. exists b. split; [done|]. intros idx Hidx.
    split; [|by apply Hget].
    destruct (Forall_lookup_1 _ _ _ _ Hall Hb) as [Hs Hw].
    apply nd_get_is_Some; [done | by rewrite Hs].
Qed.

Lemma broadcast_shape_raises (shs : list (list nat)) (e : exn T) :
  broadcast_shape shs = Raise e -> e = shape_mismatch.
Proof.
  induction shs as [|s shs IH]; [done|]. rewrite broadcast_shape_cons.
  destruct (broadcast_shape shs) as [r|e']; cbn.
  - destruct (bshape2 s r); [done | by intros [= <-]].
  - intros [= <-]. by apply IH.
Qed.

Lemma compatible_reverse_lookup (s sh : list nat) (k d : nat) :
  compatible s sh -> reverse s !! k = Some d ->
  exists e, reverse sh !! k = Some e /\ (d = 1 \/ d = e).
Proof.
  intros [Hlen Hall] Hd.
  pose proof (lookup_lt_Some _ _ _ Hd) as Hk. rewrite length_reverse in Hk.
  rewrite reverse_lookup in Hd by done.
  destruct (Forall2_lookup_l _ _ _ _ _ Hall Hd) as (e & He & Hde).
  exists e. split; [|done].
  rewrite reverse_lookup by lia. rewrite lookup_drop in He.
  rewrite <- He. f_equal. lia.
Qed.

(** X10. Two members whose shapes, read from the last dimension, have at
    one position two different sizes that are both other than 1 cannot be
    broadcast: [broadcast()] raises the value error of the shape mismatch,
    and so does the attribute of every reduction name. *)
Theorem incompatible_members_raise (self : list (ndarray T))
    (a b : ndarray T) (k d e : nat) (name : string) :
  a ∈ self -> b ∈ self ->
  reverse (shape a) !! k = Some d -> reverse (shape b) !! k = Some e ->
  d <> e -> d <> 1 -> e <> 1 ->
  name ∈ _REDUCTIONS ->
  ArrayTuple_broadcast self = Raise shape_mismatch
  /\ ArrayTuple_access self name = Raise shape_mismatch.
Proof.
  intros Ha Hb Hd He Hde Hd1 He1 Hname.
  assert (ArrayTuple_broadcast self = Raise shape_mismatch) as Hbs.
  { unfold ArrayTuple_broadcast, broadcast_arrays.
    destruct (broadcast_shape (shape <$> self)) as [sh|err] eqn:Hsh.
    - exfalso. apply broadcast_shape_compatible in Hsh.
      rewrite Forall_fmap, Forall_forall in Hsh.
      destruct (compatible_reverse_lookup _ _ _ _ (Hsh a Ha) Hd)
        as (x & Hx & Hdx).
      destruct (compatible_reverse_lookup _ _ _ _ (Hsh b Hb) He)
        as (y & Hy & Hey).
      rewrite Hx in Hy. injection Hy as <-. lia.
    - cbn. by rewrite (broadcast_shape_raises _ _ Hsh). }
  split; [done|]. by rewrite ArrayTuple_access_reduction, Hbs.
Qed.

Lemma ArrayTuple_access_forwarded (self : list (ndarray T)) (name : string) :
  name ∉ ArrayTuple_class_attrs -> name ∉ _REDUCTIONS ->
  ArrayTuple_access self name
  = (vs ← each (fun a => ndarray_getattr a name) self;
     Ok (AtDynamic (Forwarded vs))).
Proof.
  intros Hclass Hred. unfold ArrayTuple_access, ArrayTuple_getattr.
  rewrite !bool_decide_eq_false_2 by done.
  by destruct (each _ self).
Qed.

Lemma each_pointwise {A B} (f : A -> res T B) (g : A -> B) (xs : list A) :
  (forall x, x ∈ xs -> f x = Ok (g x)) -> each f xs = Ok (g <$> xs).
Proof.
  intros Hfg. apply each_Ok, Forall2_fmap_r, Forall_Forall2_diag, Forall_forall.
  done.
Qed.

Lemma length_onehot (K i n : nat) : i < K -> length (onehot K i n) = K.
Proof.
  intros Hi. rewrite onehot_insert by done.
  by rewrite length_insert, length_replicate.
Qed.

Lemma sparse_from_lookup_inv (K p i : nat) (xs : list (list T))
    (a : ndarray T) :
  sparse_from K p xs !! i = Some a ->
  exists x, xs !! i = Some x /\ a = mk_nd (onehot K (p + i) (length x)) x.
Proof.
  intros Ha. pose proof (lookup_lt_Some _ _ _ Ha) as Hi.
  rewrite length_sparse_from in Hi.
  destruct (lookup_lt_is_Some_2 xs i Hi) as [x Hx].
  rewrite (lookup_sparse_from _ _ _ _ _ Hx) in Ha. injection Ha as <-.
  by exists x.
Qed.

(** The attributes [ndim] and [size] of the members of a grid, before and
    after [broadcast()]. *)
Definition grid_attributes (xs : list (list T))
    (r : res T (list (ndarray T))) : Prop :=
  exists arrs,
    r = Ok arrs
    /\ ArrayTuple_access arrs "ndim"
       = Ok (AtDynamic (Forwarded ((fun _ => ANdim (length xs)) <$> xs)))
    /\ ArrayTuple_access arrs "size"
       = Ok (AtDynamic (Forwarded ((fun x => ASize (length x)) <$> xs)))
    /\ exists bs,
         ArrayTuple_broadcast arrs = Ok bs
         /\ ArrayTuple_access bs "size"
            = Ok (AtDynamic
                    (Forwarded ((fun _ => ASize (prod_shape (length <$> xs)))
                                  <$> xs))).

Lemma sparse_grid_attributes sel (h : heap T) (self : AxesTuple T) xs :
  has_seqs sel h (items self) xs ->
  grid_attributes xs
    (gen ← each (fun s => '(_, a) ← deref h s; Ok (sel a)) (items self);
     meshgrid gen (sparse _MGRIDOPTS) (indexing_ _MGRIDOPTS)).
Proof.
  intros Hseqs. rewrite (has_seqs_each _ _ _ _ Hseqs).
  assert (("ndim" ∉ ArrayTuple_class_attrs) /\ ("ndim" ∉ _REDUCTIONS)
          /\ ("size" ∉ ArrayTuple_class_attrs) /\ ("size" ∉ _REDUCTIONS))
    as (Hn1 & Hn2 & Hs1 & Hs2).
  { unfold ArrayTuple_class_attrs, _REDUCTIONS.
    rewrite !list_elem_of_In. cbn. intuition discriminate. }
  assert (forall (v : list T -> @ndattr T) name (arrs : list (ndarray T)),
            length arrs = length xs ->
            (forall i a x, arrs !! i = Some a -> xs !! i = Some x ->
                           ndarray_getattr a name = Ok (v x)) ->
            each (fun a => ndarray_getattr a name) arrs = Ok (v <$> xs))
    as Heach.
  { intros v name arrs Hlen Hv. apply each_Ok, Forall2_fmap_r.
    apply Forall2_same_length_lookup. split; [done|]. intros i a x Ha Hx.
    by eapply Hv. }
  exists (sparse_from (length xs) 0 xs).
  split; [apply meshgrid_sparse_ij|]. split; [|split].
  - rewrite ArrayTuple_access_forwarded by done.
    rewrite (Heach (fun _ => ANdim (length xs)));
      [done | apply length_sparse_from |].
    intros i a x Ha Hx. pose proof (lookup_lt_Some _ _ _ Hx).
    rewrite (lookup_sparse_from _ _ _ _ _ Hx) in Ha. injection Ha as <-.
    unfold ndarray_getattr. cbn [shape]. rewrite decide_False by done.
    rewrite decide_True by done. by rewrite length_onehot.
  - rewrite ArrayTuple_access_forwarded by done.
    rewrite (Heach (fun x => ASize (length x)));
      [done | apply length_sparse_from |].
    intros i a x Ha Hx. pose proof (lookup_lt_Some _ _ _ Hx).
    rewrite (lookup_sparse_from _ _ _ _ _ Hx) in Ha. injection Ha as <-.
    unfold ndarray_getattr. cbn [shape]. rewrite !decide_False by done.
    rewrite decide_True by done. by rewrite prod_shape_onehot.
  - eexists. split; [apply broadcast_arrays_sparse|].
    rewrite ArrayTuple_access_forwarded by done.
    rewrite (Heach (fun _ => ASize (prod_shape (length <$> xs))));
      [done | by rewrite length_fmap, length_sparse_from |].
    intros i b x Hb Hx. rewrite list_lookup_fmap in Hb.
    destruct (sparse_from _ _ _ !! i) as [a|]; [|done]. injection Hb as <-.
    assert (shape (if bool_decide (shape a = length <$> xs) then a
                   else broadcast_to a (length <$> xs)) = length <$> xs)
      as Hshape by by case_bool_decide.
    unfold ndarray_getattr. rewrite Hshape. rewrite !decide_False by done.
    by rewrite decide_True.
Qed.

(** X11. The members of the grids are sparse: over [K] axes of the store,
    every member of [centers], [edges] and [widths] has [ndim] equal to [K]
    and [size] equal to the number of entries of its axis's sequence, so
    that the grid holds the sum of these numbers of elements; after
    [broadcast()] every member has [size] equal to their product. *)
Theorem grids_are_sparse (h : heap T) (self : AxesTuple T)
    (cs es ws : list (list T)) :
  has_seqs ax_centers h (items self) cs ->
  has_seqs ax_edges h (items self) es ->
  has_seqs ax_widths h (items self) ws ->
  grid_attributes cs (AxesTuple_centers h self)
  /\ grid_attributes es (AxesTuple_edges h self)
  /\ grid_attributes ws (AxesTuple_widths h self).
Proof.
  intros Hc He Hw. split; [|split].
  - exact (sparse_grid_attributes ax_centers h self cs Hc).
  - exact (sparse_grid_attributes ax_edges h self es He).
  - exact (sparse_grid_attributes ax_widths h self ws Hw).
Qed.

End MoreBroadcast.

(** ** The reductions over integers *)

Lemma foldl_op_start (op : Z -> Z -> Z) (acc x : Z) (l : list Z) :
  (forall a b c, op (op a b) c = op a (op b c)) ->
  foldl op (op acc x) l = op acc (foldl op x l).
Proof.
  intros Hassoc. revert x. induction l as [|y l IH]; intros x; [done|].
  cbn. by rewrite Hassoc, IH.
Qed.

Lemma foldl_op_concat (op : Z -> Z -> Z) (unit : Z) (ls : list (list Z)) :
  (forall a b c, op (op a b) c = op a (op b c)) ->
  (forall a, op a unit = a) ->
  forall acc,
    foldl op acc (concat ls) = foldl op acc (foldl op unit <$> ls).
Proof.
  intros Hassoc Hunit. induction ls as [|l ls IH]; intros acc; [done|].
  cbn [concat fmap list_fmap]. rewrite foldl_app, IH. cbn [foldl]. f_equal.
  rewrite <- (Hunit acc) at 1. by apply foldl_op_start.
Qed.

(** The result of a reduction on a member that is not empty. *)
Definition first_fold (op : Z -> Z -> Z) (l : list Z) : Z :=
  match l with
  | [] => 0%Z
  | x :: xs => foldl op x xs
  end.

Lemma foldl_op_concat_nonempty (op : Z -> Z -> Z) (ls : list (list Z)) :
  (forall a b c, op (op a b) c = op a (op b c)) ->
  Forall (fun l => l <> []) ls ->
  forall acc,
    foldl op acc (concat ls) = foldl op acc (first_fold op <$> ls).
Proof.
  intros Hassoc Hne. induction Hne as [|l ls Hl _ IH]; intros acc; [done|].
  destruct l as [|x l]; [done|].
  cbn [concat fmap list_fmap first_fold]. rewrite foldl_app, IH.
  cbn [foldl]. f_equal. by apply foldl_op_start.
Qed.

Lemma existsb_concat_members (ls : list (list Z)) :
  existsb s_truth (concat ls)
  = existsb s_truth
      ((fun l => if existsb s_truth l then 1%Z else 0%Z) <$> ls).
Proof.
  induction ls as [|l ls IH]; [done|].
  cbn [concat fmap list_fmap existsb]. rewrite existsb_app, IH.
  by destruct (existsb s_truth l).
Qed.

Lemma forallb_concat_members (ls : list (list Z)) :
  forallb s_truth (concat ls)
  = forallb s_truth
      ((fun l => if forallb s_truth l then 1%Z else 0%Z) <$> ls).
Proof.
  induction ls as [|l ls IH]; [done|].
  cbn [concat fmap list_fmap forallb]. rewrite forallb_app, IH.
  by destruct (forallb s_truth l).
Qed.

Lemma mapM_scalar_of_numbers {A} (g : A -> Z) (xs : list A) :
  mapM scalar_of ((fun x => VNum (g x)) <$> xs) = Some (g <$> xs).
Proof. induction xs as [|x xs IH]; [done|]. cbn. by rewrite IH. Qed.

Lemma mapM_scalar_of_booleans {A} (g : A -> bool) (xs : list A) :
  mapM scalar_of ((fun x => VBool (g x)) <$> xs)
  = Some ((fun x => if g x then 1%Z else 0%Z) <$> xs).
Proof. induction xs as [|x xs IH]; [done|]. cbn. by rewrite IH. Qed.

Lemma data_np_stack (bs : list (ndarray Z)) :
  data (np_stack bs) = concat (data <$> bs).
Proof. by destruct bs. Qed.

(** Members of one shape are all empty or all not empty. *)
Lemma same_shape_all_empty_or_none (bs : list (ndarray Z)) (sh : list nat) :
  Forall (fun b => shape b = sh /\ nd_wf b) bs ->
  Forall (fun b => data b = []) bs \/ Forall (fun b => data b <> []) bs.
Proof.
  intros Hall. destruct (decide (prod_shape sh = 0)) as [Hz|Hz].
  - left. eapply Forall_impl; [exact Hall|]. intros b [Hs Hw].
    unfold nd_wf in Hw. rewrite Hs, Hz in Hw. by apply length_zero_iff_nil.
  - right. eapply Forall_impl; [exact Hall|]. intros b [Hs Hw] Hd.
    unfold nd_wf in Hw. rewrite Hs, Hd in Hw. cbn in Hw. lia.
Qed.

Lemma extremum_after_broadcast (op : Z -> Z -> Z) (what : string)
    (f : ndarray Z -> res Z (value Z)) (bs : list (ndarray Z))
    (sh : list nat) :
  (forall a b c, op (op a b) c = op a (op b c)) ->
  (forall a, f a = match data a with
                   | [] => Raise (zero_size what)
                   | x :: xs => Ok (VNum (foldl op x xs))
                   end) ->
  Forall (fun b => shape b = sh /\ nd_wf b) bs ->
  f (np_stack bs)
  = (rs ← each f bs;
     match mapM scalar_of rs with
     | Some xs => f (mk_nd [length xs] xs)
     | None => Raise (ValueError "not a number")
     end).
Proof.
  intros Hassoc Hf Hall. rewrite (Hf (np_stack bs)), data_np_stack.
  destruct bs as [|b0 bs]; [cbn; by rewrite Hf|].
  destruct (same_shape_all_empty_or_none _ _ Hall) as [Hempty|Hfull].
  - inversion Hempty as [|? ? Hb0 Hrest]; subst.
    cbn [each fmap list_fmap concat]. rewrite (Hf b0), Hb0. cbn.
    assert (concat (data <$> bs) = []) as ->; [|done].
    clear -Hrest. induction Hrest as [|b bs Hb _ IH]; [done|].
    cbn. by rewrite Hb, IH.
  - rewrite (each_pointwise f (fun b => VNum (first_fold op (data b)))).
    2:{ intros b Hb. rewrite Hf.
        pose proof (proj1 (Forall_forall _ _) Hfull b Hb) as Hd.
        cbn beta in Hd. by destruct (data b). }
    cbn [mbind res_mbind res_bind].
    rewrite (mapM_scalar_of_numbers (fun b => first_fold op (data b))).
    rewrite Hf. cbn [data fmap list_fmap concat].
    inversion Hfull as [|? ? Hb0 Hrest]; subst.
    destruct (data b0) as [|x l] eqn:Hd0; [done|].
    cbn [app first_fold]. f_equal. f_equal.
    rewrite foldl_app.
    rewrite (foldl_op_concat_nonempty op (data <$> bs)); [|done|].
    + by rewrite <- list_fmap_compose.
    + by apply Forall_fmap.
Qed.

(** X12. Over integers, what a reduction name computes on the ensemble is
    what it computes on each member of [broadcast()] separately, combined
    by the same reduction (a boolean counting as 1 or 0): the difference
    with reducing each member as it is comes from broadcasting alone. This
    holds for the six names, errors on empty arrays included. *)
Theorem ensemble_is_members_after_broadcast (self bs : list (ndarray Z))
    (name : string) :
  name ∈ _REDUCTIONS ->
  Forall nd_wf self ->
  ArrayTuple_broadcast self = Ok bs ->
  reduce_jointly name self = reduce_each_then_combine name bs.
Proof.
  intros Hname Hwf Hbs.
  destruct (broadcast_arrays_members _ _ Hwf Hbs) as (sh & _ & Hall & _).
  unfold reduce_jointly. rewrite ArrayTuple_access_reduction, Hbs by done.
  cbn [mbind res_mbind res_bind]. clear Hbs Hwf.
  unfold partial_call, reduce_each_then_combine.
  pattern name. apply (reductions_cases _ _ Hname); clear Hname name.
  - change (np_getattr "sum") with (Some (np_sum (T:=Z))). cbv beta iota.
    rewrite (each_pointwise np_sum
               (fun b => VNum (foldl Z.add 0%Z (data b)))) by done.
    cbn [mbind res_mbind res_bind].
    rewrite (mapM_scalar_of_numbers (fun b => foldl Z.add 0%Z (data b))).
    unfold np_sum. rewrite data_np_stack. cbn [data s_add s_zero Z_scalar].
    rewrite (foldl_op_concat Z.add 0%Z) by (intros; lia).
    by rewrite <- list_fmap_compose.
  - change (np_getattr "any") with (Some (np_any (T:=Z))). cbv beta iota.
    rewrite (each_pointwise np_any
               (fun b => VBool (existsb s_truth (data b)))) by done.
    cbn [mbind res_mbind res_bind].
    rewrite (mapM_scalar_of_booleans (fun b => existsb s_truth (data b))).
    unfold np_any. rewrite data_np_stack. cbn [data].
    rewrite existsb_concat_members. by rewrite <- list_fmap_compose.
  - change (np_getattr "all") with (Some (np_all (T:=Z))). cbv beta iota.
    rewrite (each_pointwise np_all
               (fun b => VBool (forallb s_truth (data b)))) by done.
    cbn [mbind res_mbind res_bind].
    rewrite (mapM_scalar_of_booleans (fun b => forallb s_truth (data b))).
    unfold np_all. rewrite data_np_stack. cbn [data].
    rewrite forallb_concat_members. by rewrite <- list_fmap_compose.
  - change (np_getattr "min") with (Some (np_min (T:=Z))). cbv beta iota.
    apply (extremum_after_broadcast Z.min "minimum" np_min bs sh);
      [intros; lia | done | done].
  - change (np_getattr "max") with (Some (np_max (T:=Z))). cbv beta iota.
    apply (extremum_after_broadcast Z.max "maximum" np_max bs sh);
      [intros; lia | done | done].
  - change (np_getattr "prod") with (Some (np_prod (T:=Z))). cbv beta iota.
    rewrite (each_pointwise np_prod
               (fun b => VNum (foldl Z.mul 1%Z (data b)))) by done.
    cbn [mbind res_mbind res_bind].
    rewrite (mapM_scalar_of_numbers (fun b => foldl Z.mul 1%Z (data b))).
    unfold np_prod. rewrite data_np_stack. cbn [data s_mul s_one Z_scalar].
    rewrite (foldl_op_concat Z.mul 1%Z) by (intros; lia).
    by rewrite <- list_fmap_compose.
Qed.

(** ** Calls through an ArrayTuple *)

Section Calls.
Context {T : Type}.

(** The members of the [ArrayTuple] that forwarding returns are whatever
    the attributes of the members are, arrays or not. What reading an
    attribute of such an object and what calling it do belongs to the
    object: they are taken as they come, [arguments] standing for the
    positional and keyword arguments of a call. *)
Variable member : Type.
Variable arguments : Type.
Variable member_getattr : member -> string -> res T member.
Variable member_call : member -> arguments -> res T member.

(** The second branch of [ArrayTuple.__getattr__]. *)
Definition ArrayTuple_forward (self : list member) (name : string)
  : res T (list member) :=
  each (fun a => member_getattr a name) self.

(** [ArrayTuple.__call__] *)
Definition ArrayTuple_call (self : list member) (args : arguments)
  : res T (list member) :=
  each (fun a => member_call a args) self.

Lemma each_first_raise {A B} (f : A -> res T B) (pre post : list A) (a : A)
    (e : exn T) :
  Forall (fun b => exists y, f b = Ok y) pre -> f a = Raise e ->
  each f (pre ++ a :: post) = Raise e.
Proof.
  intros Hpre Ha. induction Hpre as [|b pre [y Hy] _ IH]; cbn.
  - by rewrite Ha.
  - by rewrite Hy, IH.
Qed.

(** X13. Calling a method through the tuple, [self.name(args)] for a name
    that is forwarded: it returns [rs] exactly when every member has the
    attribute and the call of each attribute returns, [rs] being these
    results in order. Every attribute is read before any call is made: the
    first member that lacks the attribute decides the error, whatever the
    calls on the members before it would do. *)
Theorem forwarded_method_call (self : list member) (name : string)
    (args : arguments) :
  (forall rs,
     (fs ← ArrayTuple_forward self name; ArrayTuple_call fs args) = Ok rs
     <-> Forall2 (fun a r =>
                    exists f,
                      member_getattr a name = Ok f
                      /\ member_call f args = Ok r) self rs)
  /\ (forall pre a post e,
        self = pre ++ a :: post ->
        Forall (fun b => exists f, member_getattr b name = Ok f) pre ->
        member_getattr a name = Raise e ->
        (fs ← ArrayTuple_forward self name; ArrayTuple_call fs args)
        = Raise e).
Proof.
  unfold ArrayTuple_forward, ArrayTuple_call. split.
  - intros rs. split.
    + destruct (each _ self) as [fs|e] eqn:Hfs; [|done].
      cbn [mbind res_mbind res_bind]. intros Hrs.
      apply each_Ok in Hfs. apply each_Ok in Hrs.
      eapply Forall2_compose; [|exact Hfs|exact Hrs].
      intros a f r Hf Hr. by exists f.
    + intros Hall.
      assert (exists fs,
                Forall2 (fun a f => member_getattr a name = Ok f) self fs
                /\ Forall2 (fun f r => member_call f args = Ok r) fs rs)
        as (fs & Hfs & Hrs).
      { induction Hall as [|a r self rs (f & Hf & Hr) _ (fs & Hfs & Hrs)].
        - exists []. split; constructor.
        - exists (f :: fs). split; by constructor. }
      apply each_Ok in Hfs. apply each_Ok in Hrs. by rewrite Hfs.
  - intros pre a post e -> Hpre Ha.
    by rewrite (each_first_raise _ pre post a e Hpre Ha).
Qed.

End Calls.

(** ** Names listed by an ArrayTuple *)

Section Dir.

(** [not n.startswith("_")] *)
Definition is_public (n : string) : bool :=
  match n with
  | String c _ => negb (Ascii.eqb c "_"%char)
  | EmptyString => true
  end.

(** The order of [str], by code points. *)
Definition string_le (a b : string) : Prop := String.leb a b = true.

#[local] Instance string_le_dec : RelDecision string_le.
Proof. intros a b. unfold string_le. apply _. Defined.

#[local] Instance string_le_total : Total string_le.
Proof. intros a b. apply String.leb_total. Qed.

(** [ArrayTuple.__dir__]. The two lists are what [dir] returns for the class
    and for the argument of the second call, which is a string literal, so
    that they are the names of the class and the names of [str]. *)
Definition ArrayTuple_dir (dir_class dir_str : list string) : list string :=
  merge_sort string_le
    (filter (fun n => is_public n = true) (dir_class ++ dir_str)).

(** X14. [__dir__] returns, in the order of [str], the names of the class
    and the names of [str] that do not begin with an underscore, each as
    many times as it occurs in the two lists together: a name of both is
    listed twice, and a name of neither, such as an attribute that only the
    member arrays have, is not listed. *)
Theorem ArrayTuple_dir_spec (dir_class dir_str : list string) :
  Sorted string_le (ArrayTuple_dir dir_class dir_str)
  /\ ArrayTuple_dir dir_class dir_str
     ≡ₚ filter (fun n => is_public n = true) dir_class
        ++ filter (fun n => is_public n = true) dir_str
  /\ (forall n,
        n ∈ ArrayTuple_dir dir_class dir_str
        <-> is_public n = true /\ (n ∈ dir_class \/ n ∈ dir_str))
  /\ (forall n,
        is_public n = true -> n ∈ dir_class -> n ∈ dir_str ->
        exists l1 l2 l3,
          ArrayTuple_dir dir_class dir_str = l1 ++ n :: l2 ++ n :: l3).
Proof.
  unfold ArrayTuple_dir.
  assert (merge_sort string_le
            (filter (fun n => is_public n = true) (dir_class ++ dir_str))
          ≡ₚ filter (fun n => is_public n = true) dir_class
             ++ filter (fun n => is_public n = true) dir_str) as Hperm
    by by rewrite merge_sort_Permutation, filter_app.
  split; [apply Sorted_merge_sort, _|]. split; [done|]. split.
  - intros n. rewrite Hperm, elem_of_app, !list_elem_of_filter. tauto.
  - intros n Hn Hc Hs.
    assert (n ∈ filter (fun n => is_public n = true) dir_class) as Hc'
      by by apply list_elem_of_filter.
    assert (n ∈ filter (fun n => is_public n = true) dir_str) as Hs'
      by by apply list_elem_of_filter.
    apply list_elem_of_split in Hc' as (c1 & c2 & Hc').
    apply list_elem_of_split in Hs' as (s1 & s2 & Hs').
    rewrite Hc', Hs' in Hperm.
    assert (merge_sort string_le
              (filter (fun n => is_public n = true) (dir_class ++ dir_str))
            ≡ₚ n :: n :: (c1 ++ c2 ++ s1 ++ s2)) as Hperm'.
    { rewrite Hperm. solve_Permutation. }
    revert Hperm'. generalize (merge_sort string_le
      (filter (fun n => is_public n = true) (dir_class ++ dir_str))).
    intros l Hl.
    assert (n ∈ l) as Hin by (rewrite Hl; by left).
    apply list_elem_of_split in Hin as (l1 & r & ->).
    rewrite <- Permutation_middle in Hl. apply Permutation_cons_inv in Hl.
    assert (n ∈ l1 ++ r) as Hin by (rewrite Hl; by left).
    apply elem_of_app in Hin as [Hin|Hin].
    + apply list_elem_of_split in Hin as (l1a & l1b & ->).
      exists l1a, l1b, r. by rewrite <- app_assoc.
    + apply list_elem_of_split in Hin as (ra & rb & ->).
      exists l1, ra, rb. done.
Qed.

End Dir.

(** ** The further properties on the concrete histogram *)

Lemma shared_in_store : in_store demo_heap (items shared_axes).
Proof.
  repeat constructor; by exists 1%positive, (regular 3 2).
Defined.

Lemma demo_no_dup : NoDup (items demo_axes).
Proof.
  repeat constructor; rewrite list_elem_of_In; cbn; intuition discriminate.
Qed.

Lemma demo_grid_wf :
  Forall nd_wf [mk_nd [3; 1] [1; 3; 5]%Z; mk_nd [1; 2] [5; 15]%Z].
Proof. by repeat constructor. Defined.

(** X1: every second member of the two axes. *)
Lemma AxesTuple_getitem_slice_witness :
  exists sub,
    AxesTuple_getitem demo_axes (KSlice None None (Some 2%Z))
    = Ok (Wrapped (mk_axes sub ∅))
    /\ AxesTuple_new sub = Ok (mk_axes sub ∅)
    /\ length sub = 1.
Proof.
  destruct (proj2 (AxesTuple_getitem_slice [VAxis 1; VAxis 2] demo_axes
                     None None (Some 2%Z) eq_refl))
    as (sub & Hget & Hnew & Hlen & _); [done|].
  exists sub. split; [exact Hget|]. split; [exact Hnew | exact Hlen].
Defined.

(** X2: the two axes in reverse order. *)
Lemma AxesTuple_getitem_whole_and_reversed_witness :
  AxesTuple_getitem demo_axes (KSlice None None None) = Ok (Wrapped demo_axes)
  /\ AxesTuple_getitem demo_axes (KSlice None None (Some (-1)%Z))
     = Ok (Wrapped (mk_axes [VAxis 2; VAxis 1] ∅)).
Proof.
  destruct (AxesTuple_getitem_whole_and_reversed [VAxis 1; VAxis 2] demo_axes
              eq_refl) as (Hwhole & Hrev & _).
  split; [exact Hwhole | exact Hrev].
Defined.

(** X4: the grid of centers after labels are written. *)
Lemma setattr_changes_that_attribute_only_witness :
  AxesTuple_centers
    (AxesTuple_setattr demo_heap demo_axes "label" [VStr "x"; VStr "y"]).1.1
    demo_axes
  = AxesTuple_centers demo_heap demo_axes.
Proof.
  destruct (AxesTuple_setattr demo_heap demo_axes "label"
              [VStr "x"; VStr "y"]) as [[h' self'] r] eqn:Hset.
  exact (proj1 (proj2 (proj2 (setattr_changes_that_attribute_only
                                _ _ _ _ demo_axes _ _ _ Hset)))).
Defined.

(** X5: two labels written to one axis object that is there twice. *)
Lemma setattr_last_write_wins_witness :
  exists h' rs,
    AxesTuple_setattr demo_heap shared_axes "label" [VStr "x"; VStr "y"]
    = (h', shared_axes, Ok ())
    /\ AxesTuple_getattr h' shared_axes "label" = Ok rs
    /\ length rs = 2.
Proof.
  destruct (setattr_last_write_wins demo_heap shared_axes
              [1%positive; 1%positive] "label" [VStr "x"; VStr "y"]
              eq_refl shared_in_store label_is_writable ltac:(discriminate)
              eq_refl)
    as (h' & rs & Hset & Hget & Hlen & _).
  exists h', rs. split; [exact Hset|]. split; [exact Hget | exact Hlen].
Defined.

(** X6: one label for two axes. *)
Lemma setattr_arity_mismatch_writes_a_prefix_witness :
  exists h',
    AxesTuple_setattr demo_heap demo_axes "label" [VStr "x"]
    = (h', demo_axes, Raise ArityMismatch)
    /\ py_getattr h' (VAxis 1) "label" = Ok (VStr "x")
    /\ h' !! 2%positive = demo_heap !! 2%positive.
Proof.
  destruct (setattr_arity_mismatch_writes_a_prefix demo_heap demo_axes
              "label" [VStr "x"] demo_in_store demo_no_dup label_is_writable
              ltac:(discriminate) ltac:(discriminate))
    as (h' & Hset & Hmembers).
  exists h'. split; [exact Hset|]. split.
  - exact (proj1 (Hmembers 0 1%positive eq_refl) (VStr "x") eq_refl).
  - exact (proj2 (Hmembers 1 2%positive eq_refl) (le_n 1)).
Defined.

(** X9: the centers of the two axes, broadcast. *)
Lemma broadcast_members_witness :
  exists sh,
    length [mk_nd [3; 2] [1; 1; 3; 3; 5; 5]%Z;
            mk_nd [3; 2] [5; 15; 5; 15; 5; 15]%Z] = 2
    /\ Forall (fun b => shape b = sh /\ length (data b) = prod_shape sh)
              [mk_nd [3; 2] [1; 1; 3; 3; 5; 5]%Z;
               mk_nd [3; 2] [5; 15; 5; 15; 5; 15]%Z].
Proof.
  destruct (broadcast_members
              [mk_nd [3; 1] [1; 3; 5]%Z; mk_nd [1; 2] [5; 15]%Z]
              [mk_nd [3; 2] [1; 1; 3; 3; 5; 5]%Z;
               mk_nd [3; 2] [5; 15; 5; 15; 5; 15]%Z]
              demo_grid_wf eq_refl) as (sh & Hlen & Hall & _).
  exists sh. split; [exact Hlen | exact Hall].
Defined.

(** X10: two 1-D members of 2 and of 3 elements. *)
Lemma incompatible_members_raise_witness :
  ArrayTuple_broadcast [mk_nd [2] [1; 2]%Z; mk_nd [3] [1; 2; 3]%Z]
  = Raise shape_mismatch
  /\ ArrayTuple_access [mk_nd [2] [1; 2]%Z; mk_nd [3] [1; 2; 3]%Z] "sum"
     = Raise shape_mismatch.
Proof.
  apply (incompatible_members_raise
           [mk_nd [2] [1; 2]%Z; mk_nd [3] [1; 2; 3]%Z]
           (mk_nd [2] [1; 2]%Z) (mk_nd [3] [1; 2; 3]%Z) 0 2 3 "sum").
  - by left.
  - right. by left.
  - reflexivity.
  - reflexivity.
  - discriminate.
  - discriminate.
  - discriminate.
  - by left.
Defined.

(** X11: the grids of the two axes. *)
Lemma grids_are_sparse_witness :
  grid_attributes [[1; 3; 5]; [5; 15]]%Z
    (AxesTuple_centers demo_heap demo_axes)
  /\ grid_attributes [[0; 2; 4; 6]; [0; 10; 20]]%Z
       (AxesTuple_edges demo_heap demo_axes)
  /\ grid_attributes [[2; 2; 2]; [10; 10]]%Z
       (AxesTuple_widths demo_heap demo_axes).
Proof.
  exact (grids_are_sparse demo_heap demo_axes _ _ _
           (demo_has_seqs ax_centers) (demo_has_seqs ax_edges)
           (demo_has_seqs ax_widths)).
Defined.

(** X12: the sum over the centers of the two axes. *)
Lemma ensemble_is_members_after_broadcast_witness :
  reduce_jointly "sum" [mk_nd [3; 1] [1; 3; 5]%Z; mk_nd [1; 2] [5; 15]%Z]
  = reduce_each_then_combine "sum"
      [mk_nd [3; 2] [1; 1; 3; 3; 5; 5]%Z;
       mk_nd [3; 2] [5; 15; 5; 15; 5; 15]%Z].
Proof.
  apply ensemble_is_members_after_broadcast.
  - by left.
  - exact demo_grid_wf.
  - reflexivity.
Defined.
